(** * setup-npm-trusted-publish: a model of [bin/cli.js]

    The script is a linear pipeline: parse the flags, validate the package
    name, create a temporary directory, write two generated files, publish
    (unless in dry-run mode) and clean up.  This development embeds it as an
    executable Rocq program over an explicit world (file system and event
    log) and proves the properties stated for it.

    JavaScript strings are modelled by Rocq's 8-bit [string]s, read as the
    UTF-8 encoding of the text.  Every string operation the script uses
    (concatenation, [startsWith] on an ASCII character, a regular expression
    over ASCII classes, JSON quoting of ASCII characters) acts the same way
    on that encoding. *)

From Stdlib Require Import String Ascii List ZArith Lia Bool.
From stdpp Require Import gmap strings.
Import ListNotations.

Local Open Scope string_scope.

(** ** Characters used to build text *)

Definition LF : ascii := "010"%char.
Definition DQUOTE : ascii := "034"%char.
Definition nl : string := String LF EmptyString.
Definition dq : string := String DQUOTE EmptyString.

(** ** Regular expressions: the fragment of ECMAScript patterns in use *)

Module RegExp.

(** A member of a character class: a range [lo-hi] or a single character. *)
Inductive class_atom : Type :=
| ClassRange (lo hi : ascii)
| ClassChar (c : ascii).

(** Pattern syntax.  [Group false p] is the non-capturing [(?:p)],
    [Group true p] the capturing [(p)]. *)
Inductive pattern : Type :=
| Empty
| AssertStart
| AssertEnd
| Char (c : ascii)
| CharClass (atoms : list class_atom)
| Seq (p q : pattern)
| Group (capturing : bool) (p : pattern)
| Optional (p : pattern)
| Star (p : pattern).

(** The matcher state of the ECMAScript semantics: the index reached in the
    input, together with the part of the input from that index on. *)
Record state : Type := mkState { endIndex : nat; rest : string }.

Definition atom_matches (a : class_atom) (ch : ascii) : bool :=
  match a with
  | ClassRange lo hi =>
      Nat.leb (nat_of_ascii lo) (nat_of_ascii ch) && Nat.leb (nat_of_ascii ch) (nat_of_ascii hi)
  | ClassChar c => Ascii.eqb ch c
  end.

Definition class_matches (atoms : list class_atom) (ch : ascii) : bool :=
  existsb (fun a => atom_matches a ch) atoms.

(** One character against a predicate (CharacterSetMatcher). *)
Definition char_matcher (ok : ascii -> bool) (x : state) (c : state -> bool) : bool :=
  match rest x with
  | String ch t => if ok ch then c (mkState (S (endIndex x)) t) else false
  | EmptyString => false
  end.

(** RepeatMatcher for a greedy quantifier with min = 0 and no upper bound.
    An iteration that consumes nothing is a failure, as in the ECMAScript
    semantics; [fuel] bounds the number of iterations. *)
Fixpoint repeat_matcher (m : state -> (state -> bool) -> bool) (fuel : nat)
    (x : state) (c : state -> bool) : bool :=
  match fuel with
  | O => c x
  | S fuel' =>
      m x (fun y => if Nat.eqb (endIndex y) (endIndex x) then false
                    else repeat_matcher m fuel' y c)
      || c x
  end.

(** The backtracking matcher in continuation-passing style: [matcher p x c]
    tries to match [p] from state [x] and then to satisfy [c]. *)
Fixpoint matcher (p : pattern) (x : state) (c : state -> bool) {struct p} : bool :=
  match p with
  | Empty => c x
  | AssertStart => if Nat.eqb (endIndex x) 0 then c x else false
  | AssertEnd => match rest x with EmptyString => c x | String _ _ => false end
  | Char a => char_matcher (fun ch => Ascii.eqb ch a) x c
  | CharClass atoms => char_matcher (class_matches atoms) x c
  | Seq p1 p2 => matcher p1 x (fun y => matcher p2 y c)
  | Group _ p1 => matcher p1 x c
  | Optional p1 =>
      matcher p1 x (fun y => if Nat.eqb (endIndex y) (endIndex x) then false else c y)
      || c x
  | Star p1 => repeat_matcher (matcher p1) (S (String.length (rest x))) x c
  end.

Fixpoint skip (n : nat) (s : string) : string :=
  match n, s with
  | O, _ => s
  | S n', String _ t => skip n' t
  | S _, EmptyString => EmptyString
  end.

(** [RegExp.prototype.test] without the g and y flags: the match is tried at
    every start index from 0 up to the length of the input. *)
Definition test (p : pattern) (input : string) : bool :=
  existsb (fun i => matcher p (mkState i (skip i input)) (fun _ => true))
          (seq 0 (S (String.length input))).

(** *** Declarative reading of a pattern *)

Inductive star (R : state -> state -> Prop) : state -> state -> Prop :=
| star_refl x : star R x x
| star_step x y z : R x y -> star R y z -> star R x z.

Fixpoint denote (p : pattern) (x y : state) : Prop :=
  match p with
  | Empty => y = x
  | AssertStart => y = x /\ endIndex x = 0
  | AssertEnd => y = x /\ rest x = EmptyString
  | Char a => rest x = String a (rest y) /\ endIndex y = S (endIndex x)
  | CharClass atoms =>
      exists ch, class_matches atoms ch = true /\
                 rest x = String ch (rest y) /\ endIndex y = S (endIndex x)
  | Seq p1 p2 => exists m, denote p1 x m /\ denote p2 m y
  | Group _ p1 => denote p1 x y
  | Optional p1 => y = x \/ denote p1 x y
  | Star p1 => star (denote p1) x y
  end.

End RegExp.

(** ** JSON.stringify on the values the script serialises *)

Module JSON.

#[warnings="-register-all"]
Inductive value : Type :=
| Str (s : string)
| Arr (items : list value)
| Obj (members : list (string * value)).

Definition hex_digit (n : nat) : ascii :=
  nth n ["0"; "1"; "2"; "3"; "4"; "5"; "6"; "7";
         "8"; "9"; "a"; "b"; "c"; "d"; "e"; "f"]%char "0"%char.

(** QuoteJSONString, one character at a time. *)
Definition escape_char (c : ascii) : string :=
  let n := nat_of_ascii c in
  if Nat.eqb n 8 then "\b"
  else if Nat.eqb n 9 then "\t"
  else if Nat.eqb n 10 then "\n"
  else if Nat.eqb n 12 then "\f"
  else if Nat.eqb n 13 then "\r"
  else if Nat.eqb n 34 then "\" ++ dq
  else if Nat.eqb n 92 then "\\"
  else if Nat.ltb n 32 then
    "\u00" ++ String (hex_digit (n / 16)) (String (hex_digit (n mod 16)) EmptyString)
  else String c EmptyString.

Fixpoint escape (s : string) : string :=
  match s with
  | EmptyString => EmptyString
  | String c t => escape_char c ++ escape t
  end.

Definition quote (s : string) : string := dq ++ escape s ++ dq.

Fixpoint join_with (sep : string) (parts : list string) : string :=
  match parts with
  | [] => EmptyString
  | [p] => p
  | p :: ps => p ++ sep ++ join_with sep ps
  end.

(** The bracketed body of an array or object (SerializeJSONArray and
    SerializeJSONObject), given the already serialised parts. *)
Definition wrap (opening closing gap stepback : string) (parts : list string) : string :=
  match parts with
  | [] => opening ++ closing
  | _ =>
      let indent := stepback ++ gap in
      match gap with
      | EmptyString => opening ++ join_with "," parts ++ closing
      | _ =>
          opening ++ nl ++ indent ++ join_with ("," ++ nl ++ indent) parts
                  ++ nl ++ stepback ++ closing
      end
  end.

(** SerializeJSONProperty; [stepback] is the current indentation. *)
Fixpoint serialize (gap stepback : string) (v : value) {struct v} : string :=
  match v with
  | Str s => quote s
  | Arr items =>
      wrap "[" "]" gap stepback (map (serialize gap (stepback ++ gap)) items)
  | Obj members =>
      wrap "{" "}" gap stepback
        (map (fun m : string * value =>
                quote (fst m) ++ ":"
                  ++ (match gap with EmptyString => EmptyString | _ => " " end)
                  ++ serialize gap (stepback ++ gap) (snd m))
             members)
  end.

Fixpoint spaces (n : nat) : string :=
  match n with
  | O => EmptyString
  | S n' => String " "%char (spaces n')
  end.

(** [JSON.stringify(value, null, space)] with a numeric [space]. *)
Definition stringify (v : value) (space : nat) : string :=
  serialize (spaces (Nat.min 10 space)) EmptyString v.

End JSON.

(** ** The world of the process: file system, console, child processes *)

(** A path names a directory or a file with its content. *)
Inductive node : Type :=
| Directory
| File (content : string).

(** What the process does that can be observed from outside, in order.  The
    child process writes to the inherited streams by itself; its output is
    not part of the events. *)
Inductive event : Type :=
| ConsoleLog (line : string)
| ConsoleError (line : string)
| ConsoleWarn (line : string)
| Mkdir (path : string)
| WriteFile (path content : string)
| Rm (path : string)
| ExecSync (command cwd : string)
| UncaughtException (message : string).

(** The collaborators the script consumes as black boxes.  A file system call
    or the child process either succeeds ([None]) or throws an error with
    the given message. *)
Record environment : Type := mkEnvironment {
  os_tmpdir : string;
  random_hex : string;
  own_version : string;
  mkdir_error : string -> option string;
  writeFile_error : string -> option string;
  execSync_error : string -> string -> option string;
  rm_error : string -> option string
}.

(** How a piece of JavaScript ends: normally, by a thrown error, or by
    [process.exit], which ends the process on the spot. *)
Inductive completion (A : Type) : Type :=
| Normal (a : A)
| Throw (message : string)
| Exit (code : Z).
Arguments Normal {A} a.
Arguments Throw {A} message.
Arguments Exit {A} code.

Record result (A : Type) : Type := mkResult {
  trace : list event;
  files : gmap string node;
  outcome : completion A
}.
Arguments mkResult {A} trace files outcome.
Arguments trace {A} r.
Arguments files {A} r.
Arguments outcome {A} r.

(** A computation reads the file system and yields the events it produced,
    the file system it left and its completion. *)
Definition js (A : Type) : Type := gmap string node -> result A.

Definition ret {A : Type} (a : A) : js A := fun fs => mkResult [] fs (Normal a).

Definition bind {A B : Type} (m : js A) (k : A -> js B) : js B :=
  fun fs =>
    match m fs with
    | mkResult t fs' (Normal a) =>
        match k a fs' with
        | mkResult t' fs'' o => mkResult (t ++ t') fs'' o
        end
    | mkResult t fs' (Throw msg) => mkResult t fs' (Throw msg)
    | mkResult t fs' (Exit code) => mkResult t fs' (Exit code)
    end.

Declare Scope js_scope.
Delimit Scope js_scope with js.
Bind Scope js_scope with js.
Notation "m ;; k" := (bind m (fun _ => k))
  (at level 100, k at level 200, right associativity) : js_scope.
Local Open Scope js_scope.

Definition emit (e : event) : js unit := fun fs => mkResult [e] fs (Normal tt).

Definition console_log (line : string) : js unit := emit (ConsoleLog line).
Definition console_error (line : string) : js unit := emit (ConsoleError line).
Definition console_warn (line : string) : js unit := emit (ConsoleWarn line).

(** [process.exit(code)]: nothing of the program runs after it, pending
    [finally] blocks included. *)
Definition process_exit {A : Type} (code : Z) : js A :=
  fun fs => mkResult [] fs (Exit code).

(** [try { body } catch (e) { handler(e.message) }] *)
Definition try_catch {A : Type} (body : js A) (handler : string -> js A) : js A :=
  fun fs =>
    match body fs with
    | mkResult t fs' (Throw msg) =>
        match handler msg fs' with
        | mkResult t' fs'' o => mkResult (t ++ t') fs'' o
        end
    | r => r
    end.

(** [try { body } finally { finalizer }]: the finalizer runs after a normal or
    a throwing body and its own abrupt completion wins; it does not run when
    the body has ended the process. *)
Definition try_finally {A : Type} (body : js A) (finalizer : js unit) : js A :=
  fun fs =>
    match body fs with
    | mkResult t fs' (Exit code) => mkResult t fs' (Exit code)
    | mkResult t fs' o =>
        match finalizer fs' with
        | mkResult t' fs'' o' =>
            mkResult (t ++ t') fs''
              match o' with
              | Normal _ => o
              | Throw msg => Throw msg
              | Exit code => Exit code
              end
        end
    end.

(** [path.join] on POSIX for operands that are already normalised. *)
Definition join (dir name : string) : string := dir ++ "/" ++ name.

(** [under dir path]: [path] is [dir] itself or lies below it. *)
Definition under (dir path : string) : bool :=
  String.eqb path dir || String.prefix (dir ++ "/") path.

(** [String.prototype.startsWith] *)
Definition startsWith (s prefix : string) : bool := String.prefix prefix s.

Section FileSystem.
Variable env : environment.

(** [mkdir(path, { recursive: true })] *)
Definition mkdir (path : string) : js unit :=
  fun fs =>
    match mkdir_error env path with
    | Some msg => mkResult [Mkdir path] fs (Throw msg)
    | None => mkResult [Mkdir path] (<[path := Directory]> fs) (Normal tt)
    end.

(** [writeFile(path, content)] *)
Definition writeFile (path content : string) : js unit :=
  fun fs =>
    match writeFile_error env path with
    | Some msg => mkResult [WriteFile path content] fs (Throw msg)
    | None =>
        mkResult [WriteFile path content] (<[path := File content]> fs) (Normal tt)
    end.

(** [rm(path, { recursive: true, force: true })] *)
Definition rm (path : string) : js unit :=
  fun fs =>
    match rm_error env path with
    | Some msg => mkResult [Rm path] fs (Throw msg)
    | None =>
        mkResult [Rm path]
          (filter (fun entry : string * node => under path (fst entry) = false) fs)
          (Normal tt)
    end.

(** [execSync(command, { cwd, stdio: 'inherit' })] *)
Definition execSync (command cwd : string) : js unit :=
  fun fs =>
    match execSync_error env command cwd with
    | Some msg => mkResult [ExecSync command cwd] fs (Throw msg)
    | None => mkResult [ExecSync command cwd] fs (Normal tt)
    end.
End FileSystem.

(** ** The script *)

(** The text printed for [--help]. *)
Definition usage_text : string := "
Usage: setup-npm-trusted-publish <package-name>

Setup npm package for trusted publishing with OIDC by publishing a placeholder package

Arguments:
  <package-name>  The name of the npm package to setup

Options:
  -h, --help      Show help
  -v, --version   Show version
  --dry-run       Create the package but don't publish
  --access        Access level for scoped packages (public/restricted) [default: public]

Example:
  setup-npm-trusted-publish my-package
  setup-npm-trusted-publish @scope/my-package

Note:
  This tool creates and publishes a placeholder package for OIDC setup.
  The package contains only a README.md that clearly indicates it's for
  OIDC configuration purposes only.
".

(** The template of the notice document, [README.md]. *)
Definition readmeContent (packageName : string) : string :=
  "# " ++ packageName ++ "

## ⚠️ IMPORTANT NOTICE ⚠️

**This package is created solely for the purpose of setting up OIDC (OpenID Connect) trusted publishing with npm.**

This is **NOT** a functional package and contains **NO** code or functionality beyond the OIDC setup configuration.

## Purpose

This package exists to:
1. Configure OIDC trusted publishing for the package name `" ++ packageName ++ "`
2. Enable secure, token-less publishing from CI/CD workflows
3. Establish provenance for packages published under this name

## What is OIDC Trusted Publishing?

OIDC trusted publishing allows package maintainers to publish packages directly from their CI/CD workflows without needing to manage npm access tokens. Instead, it uses OpenID Connect to establish trust between the CI/CD provider (like GitHub Actions) and npm.

## Setup Instructions

To properly configure OIDC trusted publishing for this package:

1. Go to [npmjs.com](https://www.npmjs.com/) and navigate to your package settings
2. Configure the trusted publisher (e.g., GitHub Actions)
3. Specify the repository and workflow that should be allowed to publish
4. Use the configured workflow to publish your actual package

## DO NOT USE THIS PACKAGE

This package is a placeholder for OIDC configuration only. It:
- Contains no executable code
- Provides no functionality
- Should not be installed as a dependency
- Exists only for administrative purposes

## More Information

For more details about npm's trusted publishing feature, see:
- [npm Trusted Publishing Documentation](https://docs.npmjs.com/generating-provenance-statements)
- [GitHub Actions OIDC Documentation](https://docs.github.com/en/actions/deployment/security-hardening-your-deployments/about-security-hardening-with-openid-connect)

---

**Maintained for OIDC setup purposes only**
".

(** *** Command line options *)

(** What [parseArgs] recognises on a command line that it accepts, in the
    order given: the four options declared in its configuration (the
    string option [--access] with its value, any string) and the
    positionals.  Both spellings of a flag, [-h] and [--help], [-v] and
    [--version], give the same token.  A command line that [parseArgs]
    refuses makes it throw before the script does anything and is not an
    invocation here. *)
Inductive token : Type :=
| OptHelp
| OptVersion
| OptDryRun
| OptAccess (value : string)
| Positional (value : string).

(** The [values] object: one field per declared option, typed as declared. *)
Record values : Type := mkValues {
  help : bool;
  version : bool;
  dry_run : bool;
  access : string
}.

(** The [default] entries of the configuration. *)
Definition default_values : values :=
  {| help := false; version := false; dry_run := false; access := "public" |}.

Definition store_option (v : values) (t : token) : values :=
  match t with
  | OptHelp => mkValues true (version v) (dry_run v) (access v)
  | OptVersion => mkValues (help v) true (dry_run v) (access v)
  | OptDryRun => mkValues (help v) (version v) true (access v)
  | OptAccess a => mkValues (help v) (version v) (dry_run v) a
  | Positional _ => v
  end.

Definition positionals_of (tokens : list token) : list string :=
  flat_map (fun t => match t with Positional p => [p] | _ => [] end) tokens.

Definition values_of (tokens : list token) : values :=
  fold_left store_option tokens default_values.

(** [parseArgs({ options, allowPositionals: true })]: later occurrences of an
    option replace earlier ones, absent options take their default. *)
Definition parseArgs (tokens : list token) : values * list string :=
  (values_of tokens, positionals_of tokens).

(** *** Package name validation *)

Import RegExp.

Definition first_class : pattern :=
  CharClass [ClassRange "a" "z"; ClassRange "0" "9"; ClassChar "-"; ClassChar "~"].

Definition rest_class : pattern :=
  CharClass [ClassRange "a" "z"; ClassRange "0" "9"; ClassChar "-";
             ClassChar "."; ClassChar "_"; ClassChar "~"].

(** [/^(?:@[a-z0-9-~][a-z0-9-._~]*\/)?[a-z0-9-~][a-z0-9-._~]*$/] *)
Definition validPackageNameRegex : pattern :=
  Seq AssertStart
   (Seq (Optional (Group false
           (Seq (Char "@") (Seq first_class (Seq (Star rest_class) (Char "/"))))))
   (Seq first_class
   (Seq (Star rest_class)
        AssertEnd))).

(** *** Generated documents *)

Definition packageJson (packageName : string) : JSON.value :=
  JSON.Obj
    [ ("name", JSON.Str packageName);
      ("version", JSON.Str "0.0.1");
      ("description",
        JSON.Str ("OIDC trusted publishing setup package for " ++ packageName));
      ("keywords",
        JSON.Arr [JSON.Str "oidc"; JSON.Str "trusted-publishing"; JSON.Str "setup"]) ].

(** The content written to [package.json]. *)
Definition manifest_text (packageName : string) : string :=
  JSON.stringify (packageJson packageName) 2 ++ nl.

(** *** Publish command *)

Definition publishCmd (packageName access : string) : string :=
  if startsWith packageName "@"
  then "npm publish --access " ++ access
  else "npm publish".

(** The last line of the manual instructions, printed in dry-run mode and
    after a failed publish. *)
Definition manual_publish_line (packageName access : string) : string :=
  "  npm publish"
    ++ (if startsWith packageName "@" then " --access " ++ access else EmptyString).

(** *** The program *)

(** What is left when the process has ended. *)
Record report : Type := mkReport {
  exit_code : Z;
  output : list event;
  disk : gmap string node
}.

(** How the process ends: a normal end of the module gives status 0, an
    uncaught error is reported and gives status 1. *)
Definition report_of (r : result unit) : report :=
  match outcome r with
  | Normal _ => mkReport 0 (trace r) (files r)
  | Exit code => mkReport code (trace r) (files r)
  | Throw msg => mkReport 1 (trace r ++ [UncaughtException msg]) (files r)
  end.

Section Cli.
Variable env : environment.

Definition tempDirName : string := "npm-oidc-setup-" ++ random_hex env.
Definition packageDir : string := join (os_tmpdir env) tempDirName.

(** The [else] branch of the dry-run test: publish. *)
Definition publish (v : values) (packageName : string) : js unit :=
  console_log (nl ++ "📤 Publishing package to npm...") ;;
  try_catch
    (execSync env (publishCmd packageName (access v)) packageDir ;;
     console_log (nl ++ "✅ Successfully published: " ++ packageName) ;;
     console_log (nl ++ "🔗 View your package at: https://www.npmjs.com/package/"
                     ++ packageName) ;;
     console_log (nl ++ "Next steps:") ;;
     console_log ("1. Go to https://www.npmjs.com/package/" ++ packageName ++ "/access") ;;
     console_log "2. Configure OIDC trusted publishing" ;;
     console_log "3. Set up your CI/CD workflow to publish with OIDC")
    (fun publishError =>
       console_error (nl ++ "❌ Failed to publish package") ;;
       console_error ("Error: " ++ publishError) ;;
       console_log (nl ++ "📁 Package files are still available at: " ++ packageDir) ;;
       console_log "You can try publishing manually:" ;;
       console_log ("  cd " ++ packageDir) ;;
       console_log (manual_publish_line packageName (access v)) ;;
       process_exit 1).

(** The body of the outer [try]. *)
Definition generate (v : values) (packageName : string) : js unit :=
  writeFile env (join packageDir "package.json") (manifest_text packageName) ;;
  writeFile env (join packageDir "README.md") (readmeContent packageName) ;;
  console_log "✅ Created placeholder package files" ;;
  if dry_run v then
    console_log (nl ++ "🔍 Dry run mode - package created but not published") ;;
    console_log ("📁 Package location: " ++ packageDir) ;;
    console_log (nl ++ "To publish manually:") ;;
    console_log ("  cd " ++ packageDir) ;;
    console_log (manual_publish_line packageName (access v))
  else
    publish v packageName.

(** The [finally] block. *)
Definition cleanup (v : values) : js unit :=
  if negb (dry_run v) then
    try_catch
      (rm env packageDir ;;
       console_log (nl ++ "🧹 Cleaned up temp directory"))
      (fun cleanupError =>
         console_warn ("⚠️  Could not clean up temp directory: " ++ cleanupError))
  else ret tt.

(** Everything after the package name has been validated. *)
Definition setup (v : values) (packageName : string) : js unit :=
  mkdir env packageDir ;;
  console_log ("📦 Creating placeholder package: " ++ packageName) ;;
  console_log ("📁 Temp directory: " ++ packageDir) ;;
  try_finally
    (try_catch
       (generate v packageName)
       (fun error =>
          console_error (nl ++ "❌ Error: " ++ error) ;;
          process_exit 1))
    (cleanup v).

(** The module body of [bin/cli.js]. *)
Definition cli (tokens : list token) : js unit :=
  let (v, positionals) := parseArgs tokens in
  (if help v then console_log usage_text ;; process_exit 0 else ret tt) ;;
  (if version v then console_log (own_version env) ;; process_exit 0 else ret tt) ;;
  match nth_error positionals 0 with
  | Some (String _ _ as packageName) =>
      if negb (test validPackageNameRegex packageName) then
        console_error ("Error: Invalid package name: " ++ packageName) ;;
        console_error "Package names must be lowercase and can contain letters, numbers, hyphens, periods, and underscores" ;;
        process_exit 1
      else
        setup v packageName
  | _ =>
      console_error "Error: Package name is required" ;;
      console_error "Usage: setup-npm-trusted-publish <package-name>" ;;
      process_exit 1
  end.

(** Running the script as a process. *)
Definition run (fs : gmap string node) (tokens : list token) : report :=
  report_of (cli tokens fs).
End Cli.

(** ** Relations on matcher states *)

(** A match consumes a piece of the input and moves the index by its
    length. *)
Definition advances (x y : RegExp.state) : Prop :=
  exists w,
    RegExp.rest x = w ++ RegExp.rest y /\
    RegExp.endIndex y = RegExp.endIndex x + String.length w.

(** [consumes w x y]: from [x] to [y] exactly the text [w] is read. *)
Definition consumes (w : string) (x y : RegExp.state) : Prop :=
  RegExp.rest x = w ++ RegExp.rest y /\ RegExp.endIndex y = RegExp.endIndex x + String.length w.

(** ** The naming grammar, as the specification words it

    [^(@[a-z0-9-~][a-z0-9-._~]*/)?[a-z0-9-~][a-z0-9-._~]*$]: an optional
    scope, written [@], a segment and [/], followed by a segment; a segment
    is one character of [a-z0-9-~] followed by any number of characters of
    [a-z0-9-._~]. *)

Definition is_lower (c : ascii) : bool :=
  Nat.leb 97 (nat_of_ascii c) && Nat.leb (nat_of_ascii c) 122.

Definition is_digit (c : ascii) : bool :=
  Nat.leb 48 (nat_of_ascii c) && Nat.leb (nat_of_ascii c) 57.

Definition name_start (c : ascii) : bool :=
  is_lower c || is_digit c || Ascii.eqb c "-" || Ascii.eqb c "~".

Definition name_char (c : ascii) : bool :=
  is_lower c || is_digit c || Ascii.eqb c "-" || Ascii.eqb c "."
  || Ascii.eqb c "_" || Ascii.eqb c "~".

Fixpoint all_chars (ok : ascii -> bool) (s : string) : bool :=
  match s with
  | EmptyString => true
  | String c t => ok c && all_chars ok t
  end.

Definition segment (s : string) : Prop :=
  exists c t, s = String c t /\ name_start c = true /\ all_chars name_char t = true.

Definition spec_name_grammar (s : string) : Prop :=
  segment s \/
  exists scope name, s = "@" ++ scope ++ "/" ++ name /\ segment scope /\ segment name.

(** The characters a name of the grammar is made of. *)
Definition safe_char (c : ascii) : bool :=
  name_char c || Ascii.eqb c "@" || Ascii.eqb c "/".

(** A scoped name begins with [@scope/]. *)
Definition scoped (s : string) : Prop :=
  exists scope name, s = "@" ++ scope ++ "/" ++ name.

(** ** Observations on a run *)

(** The files the process wrote, in order, as (path, content). *)
Definition writes (out : list event) : list (string * string) :=
  flat_map (fun e => match e with WriteFile p c => [(p, c)] | _ => [] end) out.

Definition is_exec (e : event) : bool :=
  match e with ExecSync _ _ => true | _ => false end.

Definition is_rm (e : event) : bool :=
  match e with Rm _ => true | _ => false end.

Definition is_warning (e : event) : bool :=
  match e with ConsoleWarn _ => true | _ => false end.

Definition is_fs_call (e : event) : bool :=
  match e with Mkdir _ | WriteFile _ _ | Rm _ => true | _ => false end.

(** The values given to [--access] on the command line, in order. *)
Definition given_access (tokens : list token) : list string :=
  flat_map (fun t => match t with OptAccess a => [a] | _ => [] end) tokens.

(** A member of a JSON object. *)
Definition member (key : string) (v : JSON.value) : option JSON.value :=
  match v with
  | JSON.Obj members =>
      option_map snd (find (fun m => String.eqb (fst m) key) members)
  | _ => None
  end.

(** The directory is created and both files are written without error. *)
Definition generation_succeeds (env : environment) : Prop :=
  mkdir_error env (packageDir env) = None /\
  writeFile_error env (join (packageDir env) "package.json") = None /\
  writeFile_error env (join (packageDir env) "README.md") = None.

(** The invocation gets past the help, version and package name checks with
    [name] as its package name. *)
Definition validated (tokens : list token) (name : string) : Prop :=
  help (values_of tokens) = false /\
  version (values_of tokens) = false /\
  nth_error (positionals_of tokens) 0 = Some name /\
  test validPackageNameRegex name = true.

(** The same environment with another outcome for [rm]. *)
Definition with_rm_error (env : environment) (e : string -> option string) : environment :=
  mkEnvironment (os_tmpdir env) (random_hex env) (own_version env)
    (mkdir_error env) (writeFile_error env) (execSync_error env) e.

(** The text of the manifest for a name that needs no escaping. *)
Definition expected_manifest (packageName : string) : string :=
  "{" ++ nl
  ++ "  " ++ dq ++ "name" ++ dq ++ ": " ++ dq ++ packageName ++ dq ++ "," ++ nl
  ++ "  " ++ dq ++ "version" ++ dq ++ ": " ++ dq ++ "0.0.1" ++ dq ++ "," ++ nl
  ++ "  " ++ dq ++ "description" ++ dq ++ ": " ++ dq
       ++ "OIDC trusted publishing setup package for " ++ packageName ++ dq ++ "," ++ nl
  ++ "  " ++ dq ++ "keywords" ++ dq ++ ": [" ++ nl
  ++ "    " ++ dq ++ "oidc" ++ dq ++ "," ++ nl
  ++ "    " ++ dq ++ "trusted-publishing" ++ dq ++ "," ++ nl
  ++ "    " ++ dq ++ "setup" ++ dq ++ nl
  ++ "  ]" ++ nl
  ++ "}" ++ nl.

(** The file system once the directory and both files are in place. *)
Definition generated_files (env : environment) (name : string)
    (fs : gmap string node) : gmap string node :=
  <[join (packageDir env) "README.md" := File (readmeContent name)]>
    (<[join (packageDir env) "package.json" := File (manifest_text name)]>
       (<[packageDir env := Directory]> fs)).

(** What [rm] leaves of a file system. *)
Definition removed (dir : string) (fs : gmap string node) : gmap string node :=
  filter (fun entry : string * node => under dir (fst entry) = false) fs.

(** The events of a run up to and including a successful publish. *)
Definition published_events (env : environment) (v : values) (name : string)
    : list event :=
  [Mkdir (packageDir env);
   ConsoleLog ("📦 Creating placeholder package: " ++ name);
   ConsoleLog ("📁 Temp directory: " ++ packageDir env);
   WriteFile (join (packageDir env) "package.json") (manifest_text name);
   WriteFile (join (packageDir env) "README.md") (readmeContent name);
   ConsoleLog "✅ Created placeholder package files";
   ConsoleLog (nl ++ "📤 Publishing package to npm...");
   ExecSync (publishCmd name (access v)) (packageDir env);
   ConsoleLog (nl ++ "✅ Successfully published: " ++ name);
   ConsoleLog (nl ++ "🔗 View your package at: https://www.npmjs.com/package/" ++ name);
   ConsoleLog (nl ++ "Next steps:");
   ConsoleLog ("1. Go to https://www.npmjs.com/package/" ++ name ++ "/access");
   ConsoleLog "2. Configure OIDC trusted publishing";
   ConsoleLog "3. Set up your CI/CD workflow to publish with OIDC"].

(** The cleanup step as the specification has it after a failed publish:
    the directory is gone, or a warning about its removal was printed. *)
Definition cleanup_done (dir : string) (r : report) : Prop :=
  disk r !! dir = None \/ exists msg, In (ConsoleWarn msg) (output r).

(** The access levels of the specification. *)
Definition access_level (a : string) : Prop := a = "public" \/ a = "restricted".

(** ** Sample environments and invocations *)

Definition quiet_env : environment :=
  mkEnvironment "/tmp" "0123456789abcdef" "1.0.0"
    (fun _ => None) (fun _ => None) (fun _ _ => None) (fun _ => None).

Definition failing_publish_env : environment :=
  mkEnvironment "/tmp" "0123456789abcdef" "1.0.0"
    (fun _ => None) (fun _ => None)
    (fun _ _ => Some "Command failed: npm publish") (fun _ => None).

Definition failing_rm_env : environment :=
  mkEnvironment "/tmp" "0123456789abcdef" "1.0.0"
    (fun _ => None) (fun _ => None) (fun _ _ => None)
    (fun _ => Some "EBUSY: resource busy or locked").

(** ** Further observations on a run *)

(** The calls to the file system and to child processes, in order. *)
Definition calls (out : list event) : list event :=
  List.filter (fun e => is_fs_call e || is_exec e) out.

(** What reaches the error stream as an error: [console.error] lines and
    the report of an uncaught exception. *)
Definition is_error_event (e : event) : bool :=
  match e with ConsoleError _ | UncaughtException _ => true | _ => false end.



(** The external calls of a complete publishing run, in the order of the
    script. *)
Definition external_calls (env : environment) (v : values) (name : string)
    : list event :=
  [Mkdir (packageDir env);
   WriteFile (join (packageDir env) "package.json") (manifest_text name);
   WriteFile (join (packageDir env) "README.md") (readmeContent name);
   ExecSync (publishCmd name (access v)) (packageDir env);
   Rm (packageDir env)].

(** Number of occurrences of a character in a string. *)
Fixpoint count_char (c : ascii) (s : string) : nat :=
  match s with
  | EmptyString => 0
  | String d t => (if Ascii.eqb d c then 1 else 0) + count_char c t
  end.

(** The publish command runs without error. *)
Definition publish_succeeds (env : environment) (v : values) (name : string) : Prop :=
  execSync_error env (publishCmd name (access v)) (packageDir env) = None.



Definition failing_readme_env : environment :=
  mkEnvironment "/tmp" "0123456789abcdef" "1.0.0"
    (fun _ => None)
    (fun p => if String.eqb p "/tmp/npm-oidc-setup-0123456789abcdef/README.md"
              then Some "ENOSPC: no space left on device" else None)
    (fun _ _ => None) (fun _ => None).

(** * Properties *)

(** ** Strings *)

Lemma append_cons (c : ascii) (s t : string) : String c s ++ t = String c (s ++ t).
Proof. reflexivity. Qed.

Lemma append_empty_l (s : string) : EmptyString ++ s = s.
Proof. reflexivity. Qed.

Lemma length_append (s t : string) :
  String.length (s ++ t) = String.length s + String.length t.
Proof.
  induction s as [|c s IH]; [reflexivity|].
  rewrite append_cons. simpl. now rewrite IH.
Qed.

Lemma append_empty_r (s : string) : s ++ EmptyString = s.
Proof.
  induction s as [|c s IH]; [reflexivity|]. rewrite append_cons. now rewrite IH.
Qed.

Lemma append_assoc (s t u : string) : (s ++ t) ++ u = s ++ (t ++ u).
Proof.
  induction s as [|c s IH]; [reflexivity|]. rewrite !append_cons. now rewrite IH.
Qed.

Lemma length_zero (s : string) : String.length s = 0 -> s = EmptyString.
Proof. destruct s; simpl; [reflexivity | discriminate]. Qed.

Lemma append_cancel_l (s t u : string) : s ++ t = s ++ u -> t = u.
Proof.
  induction s as [|c s IH]; intros H; [exact H|].
  rewrite !append_cons in H. injection H as H. auto.
Qed.

Lemma prefix_append (s t : string) : String.prefix s (s ++ t) = true.
Proof.
  induction s as [|c s IH].
  - now destruct t.
  - rewrite append_cons. simpl.
    destruct (ascii_dec c c) as [_|N]; [exact IH | now destruct N].
Qed.

Lemma prefix_split (s t : string) :
  String.prefix s t = true -> exists u, t = s ++ u.
Proof.
  revert t. induction s as [|c s IH]; intros t H.
  - exists t. reflexivity.
  - destruct t as [|d t]; simpl in H; [discriminate|].
    destruct (ascii_dec c d) as [->|_]; [|discriminate].
    destruct (IH _ H) as [u ->]. now exists u.
Qed.

(** ** The matcher computes the declarative reading *)

Section Matcher.
Import RegExp.

Lemma char_matcher_spec (ok : ascii -> bool) (x : state) (c : state -> bool) :
  char_matcher ok x c = true <->
  exists y, (exists ch, ok ch = true /\ rest x = String ch (rest y)
                        /\ endIndex y = S (endIndex x))
            /\ c y = true.
Proof.
  unfold char_matcher. split.
  - destruct (rest x) as [|ch t] eqn:E; [discriminate|].
    destruct (ok ch) eqn:Hok; [|discriminate].
    intros Hc. exists (mkState (S (endIndex x)) t). split; [|exact Hc].
    exists ch. auto.
  - intros [[i r] [[ch [Hok [Hr Hi]]] Hc]]. simpl in *. subst i.
    rewrite Hr, Hok. exact Hc.
Qed.

Lemma advances_refl x : advances x x.
Proof. exists EmptyString. simpl. split; [reflexivity | lia]. Qed.

Lemma advances_trans x y z : advances x y -> advances y z -> advances x z.
Proof.
  intros [w [Hw Hi]] [w' [Hw' Hi']]. exists (w ++ w'). split.
  - rewrite Hw, Hw'. symmetry. apply append_assoc.
  - rewrite length_append. lia.
Qed.

Lemma advances_one x y ch :
  rest x = String ch (rest y) -> endIndex y = S (endIndex x) -> advances x y.
Proof.
  intros Hr Hi. exists (String ch EmptyString). simpl. split; [exact Hr | lia].
Qed.

Lemma star_advances (R : state -> state -> Prop) :
  (forall x y, R x y -> advances x y) ->
  forall x y, star R x y -> advances x y.
Proof.
  intros HR x y H. induction H as [x | x y z Hxy _ IH].
  - apply advances_refl.
  - eapply advances_trans; [apply HR; exact Hxy | exact IH].
Qed.

Lemma denote_advances (p : pattern) :
  forall x y, denote p x y -> advances x y.
Proof.
  induction p as [| | | a | atoms | p1 IH1 p2 IH2 | b p1 IH1 | p1 IH1 | p1 IH1];
    simpl; intros x y H.
  - subst. apply advances_refl.
  - destruct H as [-> _]. apply advances_refl.
  - destruct H as [-> _]. apply advances_refl.
  - destruct H as [Hr Hi]. eapply advances_one; eauto.
  - destruct H as [ch [_ [Hr Hi]]]. eapply advances_one; eauto.
  - destruct H as [m [H1 H2]]. eapply advances_trans; eauto.
  - auto.
  - destruct H as [-> | H]; [apply advances_refl | auto].
  - eapply star_advances; eauto.
Qed.

Lemma advances_same_index x y :
  advances x y -> endIndex y = endIndex x -> y = x.
Proof.
  intros [w [Hw Hi]] E.
  assert (w = EmptyString) as -> by (apply length_zero; lia).
  rewrite append_empty_l in Hw. destruct x, y. simpl in *. congruence.
Qed.

Lemma advances_shorter x y :
  advances x y -> endIndex y <> endIndex x ->
  String.length (rest y) < String.length (rest x).
Proof.
  intros [w [Hw Hi]] N. rewrite Hw, length_append. lia.
Qed.

Section Repeat.
Variable m : state -> (state -> bool) -> bool.
Variable R : state -> state -> Prop.
Hypothesis m_spec :
  forall x c, m x c = true <-> exists y, R x y /\ c y = true.
Hypothesis R_advances : forall x y, R x y -> advances x y.

Lemma repeat_matcher_sound (c : state -> bool) :
  forall fuel x, repeat_matcher m fuel x c = true ->
                 exists y, star R x y /\ c y = true.
Proof using m_spec.
  induction fuel as [|fuel IH]; simpl; intros x H.
  - exists x. split; [constructor | exact H].
  - apply orb_true_iff in H. destruct H as [H | H].
    + apply m_spec in H. destruct H as [y [Hxy Hy]].
      destruct (Nat.eqb (endIndex y) (endIndex x)); [discriminate|].
      destruct (IH _ Hy) as [z [Hyz Hz]].
      exists z. split; [econstructor; eauto | exact Hz].
    + exists x. split; [constructor | exact H].
Qed.

Lemma repeat_matcher_complete (c : state -> bool) :
  forall x y, star R x y -> c y = true ->
  forall fuel, String.length (rest x) < fuel ->
               repeat_matcher m fuel x c = true.
Proof using m_spec R_advances.
  intros x y H Hc. induction H as [x | x y z Hxy Hyz IH]; intros fuel Hfuel.
  - destruct fuel; simpl; [exact Hc|]. rewrite Hc. apply orb_true_r.
  - destruct (Nat.eq_dec (endIndex y) (endIndex x)) as [E | N].
    + assert (y = x) as -> by (apply advances_same_index; auto).
      apply IH; assumption.
    + destruct fuel as [|fuel]; [lia|]. simpl.
      apply orb_true_iff. left. apply m_spec. exists y. split; [exact Hxy|].
      apply Nat.eqb_neq in N. rewrite N. apply IH; [exact Hc|].
      apply Nat.eqb_neq in N.
      pose proof (advances_shorter x y (R_advances _ _ Hxy) N). lia.
Qed.
End Repeat.

Theorem matcher_spec (p : pattern) :
  forall x c, matcher p x c = true <-> exists y, denote p x y /\ c y = true.
Proof.
  induction p as [| | | a | atoms | p1 IH1 p2 IH2 | b p1 IH1 | p1 IH1 | p1 IH1];
    intros x c; [simpl .. | ].
  - split; [intros H; exists x; auto | intros [y [-> H]]; exact H].
  - destruct (Nat.eqb_spec (endIndex x) 0) as [E | N]; split.
    + intros H. exists x. auto.
    + intros [y [[-> _] H]]. exact H.
    + discriminate.
    + intros [y [[_ E] _]]. contradiction.
  - destruct (rest x) eqn:E; split.
    + intros H. exists x. auto.
    + intros [y [[-> _] H]]. exact H.
    + discriminate.
    + intros [y [[_ E'] _]]. discriminate.
  - rewrite char_matcher_spec. split.
    + intros [y [[ch [Hok [Hr Hi]]] Hc]]. apply Ascii.eqb_eq in Hok. subst ch.
      exists y. auto.
    + intros [y [[Hr Hi] Hc]]. exists y. split; [|exact Hc].
      exists a. rewrite Ascii.eqb_refl. auto.
  - rewrite char_matcher_spec. reflexivity.
  - rewrite IH1. split.
    + intros [m [H1 H2]]. apply IH2 in H2. destruct H2 as [y [H2 Hc]].
      exists y. split; [exists m; auto | exact Hc].
    + intros [y [[m [H1 H2]] Hc]]. exists m. split; [exact H1|].
      apply IH2. exists y. auto.
  - apply IH1.
  - rewrite orb_true_iff, IH1. split.
    + intros [[y [H1 Hc]] | Hc].
      * destruct (Nat.eqb (endIndex y) (endIndex x)); [discriminate|].
        exists y. auto.
      * exists x. auto.
    + intros [y [[-> | H1] Hc]]; [right; exact Hc|].
      destruct (Nat.eqb_spec (endIndex y) (endIndex x)) as [E | N].
      * right. assert (y = x) as <-; [|exact Hc].
        apply advances_same_index; [|exact E]. eapply denote_advances; eauto.
      * left. exists y. split; [exact H1|].
        apply Nat.eqb_neq in N. rewrite N. exact Hc.
  - change (matcher (Star p1) x c)
      with (repeat_matcher (matcher p1) (S (String.length (rest x))) x c).
    change (denote (Star p1) x) with (star (denote p1) x).
    split.
    + apply repeat_matcher_sound with (R := denote p1). exact IH1.
    + intros [y [H Hc]].
      eapply repeat_matcher_complete with (R := denote p1); eauto.
      apply denote_advances.
Qed.
End Matcher.

(** ** The validation pattern and the naming grammar *)

Section Grammar.
Import RegExp.

Lemma consumes_split (w1 w2 : string) (x y : state) :
  consumes (w1 ++ w2) x y <-> exists m, consumes w1 x m /\ consumes w2 m y.
Proof.
  unfold consumes. split.
  - intros [Hr Hi]. rewrite length_append in Hi. rewrite append_assoc in Hr.
    exists (mkState (endIndex x + String.length w1) (w2 ++ rest y)). simpl.
    repeat split; [exact Hr | lia].
  - intros [m [[Hr1 Hi1] [Hr2 Hi2]]]. rewrite length_append, append_assoc.
    split; [congruence | lia].
Qed.

Lemma denote_char (a : ascii) (x y : state) :
  denote (Char a) x y <-> consumes (String a EmptyString) x y.
Proof.
  unfold consumes. simpl. rewrite append_cons, append_empty_l.
  split; intros [Hr Hi]; split; auto; lia.
Qed.

Lemma denote_class (atoms : list class_atom) (x y : state) :
  denote (CharClass atoms) x y <->
  exists ch, class_matches atoms ch = true /\ consumes (String ch EmptyString) x y.
Proof.
  simpl. split; intros [ch [Hok H]]; exists ch; (split; [exact Hok|]).
  - apply (denote_char ch). exact H.
  - apply (denote_char ch) in H. exact H.
Qed.

Lemma star_class (atoms : list class_atom) (x y : state) :
  star (denote (CharClass atoms)) x y <->
  exists w, all_chars (class_matches atoms) w = true /\ consumes w x y.
Proof.
  split.
  - intros H. induction H as [x | x y z Hxy _ IH].
    + exists EmptyString. split; [reflexivity|]. split; simpl; [reflexivity | lia].
    + apply denote_class in Hxy. destruct Hxy as [ch [Hok Hc]].
      destruct IH as [w [Hall Hw]]. exists (String ch w). split.
      * simpl. now rewrite Hok, Hall.
      * change (String ch w) with (String ch EmptyString ++ w).
        apply consumes_split. eauto.
  - intros [w [Hall Hc]]. revert x Hall Hc.
    induction w as [|ch w IH]; intros x Hall Hc.
    + destruct Hc as [Hr Hi]. rewrite append_empty_l in Hr. simpl in Hi.
      assert (y = x) as ->; [|constructor].
      destruct x, y. simpl in *. f_equal; [lia | congruence].
    + simpl in Hall. apply andb_true_iff in Hall. destruct Hall as [Hok Hall].
      change (String ch w) with (String ch EmptyString ++ w) in Hc.
      apply consumes_split in Hc. destruct Hc as [m [H1 H2]].
      apply star_step with m; [|apply IH; assumption].
      apply denote_class. eauto.
Qed.

Lemma first_class_chars (ch : ascii) :
  class_matches [ClassRange "a" "z"; ClassRange "0" "9"; ClassChar "-"; ClassChar "~"] ch
  = name_start ch.
Proof. destruct ch as [[] [] [] [] [] [] [] []]; reflexivity. Qed.

Lemma rest_class_chars (ch : ascii) :
  class_matches [ClassRange "a" "z"; ClassRange "0" "9"; ClassChar "-";
                 ClassChar "."; ClassChar "_"; ClassChar "~"] ch
  = name_char ch.
Proof. destruct ch as [[] [] [] [] [] [] [] []]; reflexivity. Qed.

Lemma all_chars_ext (f g : ascii -> bool) (w : string) :
  (forall ch, f ch = g ch) -> all_chars f w = all_chars g w.
Proof. intros E. induction w as [|ch w IH]; simpl; [reflexivity | now rewrite E, IH]. Qed.

(** A first character followed by repeated rest characters reads exactly
    one segment. *)
Lemma denote_segment (x y : state) :
  (exists m, denote first_class x m /\ star (denote rest_class) m y) <->
  exists seg, segment seg /\ consumes seg x y.
Proof.
  unfold first_class, rest_class. split.
  - intros [m [H1 H2]]. apply denote_class in H1. destruct H1 as [ch [Hok Hc]].
    apply star_class in H2. destruct H2 as [w [Hall Hw]].
    exists (String ch w). split.
    + exists ch, w. rewrite <- first_class_chars.
      rewrite <- (all_chars_ext _ _ w rest_class_chars). auto.
    + change (String ch w) with (String ch EmptyString ++ w).
      apply consumes_split. eauto.
  - intros [seg [[ch [w [-> [Hok Hall]]]] Hc]].
    change (String ch w) with (String ch EmptyString ++ w) in Hc.
    apply consumes_split in Hc. destruct Hc as [m [H1 H2]].
    exists m. split.
    + apply denote_class. exists ch. rewrite first_class_chars. auto.
    + apply star_class. exists w.
      rewrite (all_chars_ext _ _ w rest_class_chars). auto.
Qed.

Lemma consumes_all (s : string) :
  consumes s (mkState 0 s) (mkState (String.length s) EmptyString).
Proof. split; simpl; [now rewrite append_empty_r | reflexivity]. Qed.

Lemma consumes_to_end (w s : string) (y : state) :
  consumes w (mkState 0 s) y -> rest y = EmptyString -> s = w.
Proof.
  intros [Hr _] E. simpl in Hr. rewrite E, append_empty_r in Hr. exact Hr.
Qed.

(** [test] on a pattern anchored by [^] only tries index 0. *)
Lemma test_anchored (p : pattern) (s : string) :
  test (Seq AssertStart p) s = true <->
  exists y, denote p (mkState 0 s) y.
Proof.
  unfold test. rewrite existsb_exists. split.
  - intros [i [_ H]]. apply matcher_spec in H.
    destruct H as [y [[m [[-> Hi] Hp]] _]]. simpl in Hi. subst i.
    exists y. exact Hp.
  - intros [y H]. exists 0. split; [simpl; auto|].
    apply matcher_spec. exists y. split; [|reflexivity].
    exists (mkState 0 s). simpl. auto.
Qed.

(** The code's validation accepts exactly the names of the grammar. *)
Lemma validation_grammar (s : string) :
  test validPackageNameRegex s = true <-> spec_name_grammar s.
Proof.
  unfold validPackageNameRegex. rewrite test_anchored. split.
  - intros [y [m0 [Hopt [m1 [Hf [m2 [Hs [-> Hend]]]]]]]].
    assert (exists seg, segment seg /\ consumes seg m0 m2) as [seg2 [Hseg2 Hc2]]
      by (apply denote_segment; eauto).
    destruct Hopt as [-> | Hscope].
    + left. now rewrite (consumes_to_end _ _ _ Hc2 Hend).
    + right.
      destruct Hscope as [a [Hat [b [Hf1 [c [Hs1 Hsl]]]]]].
      assert (exists seg, segment seg /\ consumes seg a c) as [seg1 [Hseg1 Hc1]]
        by (apply denote_segment; exists b; split; [exact Hf1 | exact Hs1]).
      apply (denote_char "@" (mkState 0 s) a) in Hat.
      apply (denote_char "/" c m0) in Hsl.
      exists seg1, seg2. split; [|auto].
      apply consumes_to_end with (y := m2); [|exact Hend].
      apply consumes_split. exists a. split; [exact Hat|].
      apply consumes_split. exists c. split; [exact Hc1|].
      change (String "/" seg2) with (String "/" EmptyString ++ seg2).
      apply consumes_split. exists m0. auto.
  - intros [Hseg | [seg1 [seg2 [-> [Hseg1 Hseg2]]]]].
    + exists (mkState (String.length s) EmptyString), (mkState 0 s).
      split; [left; reflexivity|].
      assert (exists m, denote first_class (mkState 0 s) m /\
                        star (denote rest_class) m
                          (mkState (String.length s) EmptyString))
        as [m [H1 H2]]
        by (apply denote_segment; exists s; split; [exact Hseg | apply consumes_all]).
      exists m. split; [exact H1|]. exists (mkState (String.length s) EmptyString).
      simpl. auto.
    + pose proof (consumes_all ("@" ++ seg1 ++ "/" ++ seg2)) as H.
      set (y := mkState (String.length ("@" ++ seg1 ++ "/" ++ seg2)) EmptyString) in *.
      apply consumes_split in H. destruct H as [a [Hat H]].
      apply consumes_split in H. destruct H as [c [Hc1 H]].
      apply consumes_split in H. destruct H as [m0 [Hsl Hc2]].
      assert (exists m, denote first_class a m /\ star (denote rest_class) m c)
        as [b [Hb1 Hb2]] by (apply denote_segment; eauto).
      assert (exists m, denote first_class m0 m /\ star (denote rest_class) m y)
        as [d [Hd1 Hd2]] by (apply denote_segment; eauto).
      exists y, m0. split.
      * right. exists a. split; [apply (denote_char "@"); exact Hat|].
        exists b. split; [exact Hb1|]. exists c. split; [exact Hb2|].
        apply (denote_char "/"). exact Hsl.
      * exists d. split; [exact Hd1|]. exists y. split; [exact Hd2|].
        simpl. auto.
Qed.
End Grammar.

(** ** Command line options *)

Section Options.
Lemma fold_store_help (tokens : list token) (v : values) :
  help (fold_left store_option tokens v)
  = help v || existsb (fun t => match t with OptHelp => true | _ => false end) tokens.
Proof.
  revert v. induction tokens as [|t tokens IH]; intros v; simpl.
  - now rewrite orb_false_r.
  - rewrite IH. destruct t; simpl; try reflexivity.
    now rewrite orb_true_r.
Qed.

Lemma fold_store_dry_run (tokens : list token) (v : values) :
  dry_run (fold_left store_option tokens v)
  = dry_run v || existsb (fun t => match t with OptDryRun => true | _ => false end) tokens.
Proof.
  revert v. induction tokens as [|t tokens IH]; intros v; simpl.
  - now rewrite orb_false_r.
  - rewrite IH. destruct t; simpl; try reflexivity.
    now rewrite orb_true_r.
Qed.

Lemma last_default (A : Type) (x : A) (l : list A) (d d' : A) :
  List.last (x :: l) d = List.last (x :: l) d'.
Proof.
  revert x. induction l as [|y l IH]; intros x; [reflexivity|].
  change (List.last (y :: l) d = List.last (y :: l) d'). apply IH.
Qed.

Lemma fold_store_access (tokens : list token) (v : values) :
  access (fold_left store_option tokens v) = List.last (given_access tokens) (access v).
Proof.
  revert v. induction tokens as [|t tokens IH]; intros v; [reflexivity|].
  simpl fold_left. rewrite IH.
  destruct t; simpl; try reflexivity.
  destruct (given_access tokens) eqn:E; [reflexivity | apply last_default].
Qed.

Lemma help_given (tokens : list token) :
  help (values_of tokens) = true <-> In OptHelp tokens.
Proof.
  unfold values_of. rewrite fold_store_help. simpl. rewrite existsb_exists. split.
  - intros [t [Hin Ht]]. destruct t; try discriminate. exact Hin.
  - intros Hin. exists OptHelp. auto.
Qed.

Lemma dry_run_given (tokens : list token) :
  dry_run (values_of tokens) = true <-> In OptDryRun tokens.
Proof.
  unfold values_of. rewrite fold_store_dry_run. simpl. rewrite existsb_exists. split.
  - intros [t [Hin Ht]]. destruct t; try discriminate. exact Hin.
  - intros Hin. exists OptDryRun. auto.
Qed.

Lemma dry_run_not_given (tokens : list token) :
  dry_run (values_of tokens) = false <-> ~ In OptDryRun tokens.
Proof.
  rewrite <- dry_run_given. destruct (dry_run (values_of tokens)); split; intros H;
    try reflexivity; try discriminate; try (intros E; discriminate).
  now destruct H.
Qed.

Lemma access_given (tokens : list token) :
  access (values_of tokens) = List.last (given_access tokens) "public".
Proof. unfold values_of. now rewrite fold_store_access. Qed.
End Options.

(** ** Running the script, scenario by scenario *)

Ltac script_step :=
  cbv [run report_of cli parseArgs setup generate publish cleanup bind try_catch
       try_finally mkdir writeFile rm execSync console_log console_error
       console_warn emit ret process_exit outcome trace files List.app negb].

Section Scenarios.
Variable env : environment.
Variable fs : gmap string node.

Lemma test_nonempty (s : string) :
  test validPackageNameRegex s = true -> exists c t, s = String c t.
Proof.
  destruct s as [|c t]; [vm_compute; discriminate | eauto].
Qed.

Lemma cli_help (tokens : list token) :
  help (values_of tokens) = true ->
  cli env tokens fs = mkResult [ConsoleLog usage_text] fs (Exit 0).
Proof. intros Hh. script_step. rewrite Hh. reflexivity. Qed.

Lemma cli_version (tokens : list token) :
  help (values_of tokens) = false ->
  version (values_of tokens) = true ->
  cli env tokens fs = mkResult [ConsoleLog (own_version env)] fs (Exit 0).
Proof. intros Hh Hv. script_step. rewrite Hh, Hv. reflexivity. Qed.

Lemma cli_missing (tokens : list token) :
  help (values_of tokens) = false ->
  version (values_of tokens) = false ->
  nth_error (positionals_of tokens) 0 = None \/
  nth_error (positionals_of tokens) 0 = Some EmptyString ->
  cli env tokens fs
  = mkResult [ConsoleError "Error: Package name is required";
              ConsoleError "Usage: setup-npm-trusted-publish <package-name>"]
      fs (Exit 1).
Proof.
  intros Hh Hv Hp. script_step. rewrite Hh, Hv.
  destruct Hp as [-> | ->]; reflexivity.
Qed.

Lemma cli_invalid (tokens : list token) (name : string) :
  help (values_of tokens) = false ->
  version (values_of tokens) = false ->
  nth_error (positionals_of tokens) 0 = Some name ->
  name <> EmptyString ->
  test validPackageNameRegex name = false ->
  cli env tokens fs
  = mkResult [ConsoleError ("Error: Invalid package name: " ++ name);
              ConsoleError "Package names must be lowercase and can contain letters, numbers, hyphens, periods, and underscores"]
      fs (Exit 1).
Proof.
  intros Hh Hv Hp Hne Ht. script_step. rewrite Hh, Hv, Hp.
  destruct name as [|c t]; [contradiction|]. rewrite Ht. reflexivity.
Qed.

Lemma cli_validated (tokens : list token) (name : string) :
  validated tokens name ->
  cli env tokens fs = setup env (values_of tokens) name fs.
Proof.
  intros (Hh & Hv & Hp & Ht).
  destruct (test_nonempty _ Ht) as [c [t ->]].
  unfold cli, parseArgs. rewrite Hh, Hv, Hp, Ht.
  cbv [bind ret negb]. now destruct (setup env (values_of tokens) (String c t) fs).
Qed.

Variable v : values.
Variable name : string.

Lemma setup_mkdir_failed (msg : string) :
  mkdir_error env (packageDir env) = Some msg ->
  setup env v name fs = mkResult [Mkdir (packageDir env)] fs (Throw msg).
Proof. intros Hm. script_step. rewrite Hm. reflexivity. Qed.

Lemma setup_manifest_failed (msg : string) :
  mkdir_error env (packageDir env) = None ->
  writeFile_error env (join (packageDir env) "package.json") = Some msg ->
  setup env v name fs
  = mkResult
      [Mkdir (packageDir env);
       ConsoleLog ("📦 Creating placeholder package: " ++ name);
       ConsoleLog ("📁 Temp directory: " ++ packageDir env);
       WriteFile (join (packageDir env) "package.json") (manifest_text name);
       ConsoleError (nl ++ "❌ Error: " ++ msg)]
      (<[packageDir env := Directory]> fs) (Exit 1).
Proof. intros Hm Hw. script_step. rewrite Hm, Hw. reflexivity. Qed.

Lemma setup_readme_failed (msg : string) :
  mkdir_error env (packageDir env) = None ->
  writeFile_error env (join (packageDir env) "package.json") = None ->
  writeFile_error env (join (packageDir env) "README.md") = Some msg ->
  setup env v name fs
  = mkResult
      [Mkdir (packageDir env);
       ConsoleLog ("📦 Creating placeholder package: " ++ name);
       ConsoleLog ("📁 Temp directory: " ++ packageDir env);
       WriteFile (join (packageDir env) "package.json") (manifest_text name);
       WriteFile (join (packageDir env) "README.md") (readmeContent name);
       ConsoleError (nl ++ "❌ Error: " ++ msg)]
      (<[join (packageDir env) "package.json" := File (manifest_text name)]>
         (<[packageDir env := Directory]> fs))
      (Exit 1).
Proof. intros Hm Hw1 Hw2. script_step. rewrite Hm, Hw1, Hw2. reflexivity. Qed.

Hypothesis generation_ok : generation_succeeds env.

Lemma setup_dry_run :
  dry_run v = true ->
  setup env v name fs
  = mkResult
      [Mkdir (packageDir env);
       ConsoleLog ("📦 Creating placeholder package: " ++ name);
       ConsoleLog ("📁 Temp directory: " ++ packageDir env);
       WriteFile (join (packageDir env) "package.json") (manifest_text name);
       WriteFile (join (packageDir env) "README.md") (readmeContent name);
       ConsoleLog "✅ Created placeholder package files";
       ConsoleLog (nl ++ "🔍 Dry run mode - package created but not published");
       ConsoleLog ("📁 Package location: " ++ packageDir env);
       ConsoleLog (nl ++ "To publish manually:");
       ConsoleLog ("  cd " ++ packageDir env);
       ConsoleLog (manual_publish_line name (access v))]
      (generated_files env name fs) (Normal tt).
Proof using generation_ok.
  destruct generation_ok as (Hm & Hw1 & Hw2). intros Hd.
  script_step. rewrite Hm, Hw1, Hw2, Hd. reflexivity.
Qed.

Lemma setup_publish_failed (msg : string) :
  dry_run v = false ->
  execSync_error env (publishCmd name (access v)) (packageDir env) = Some msg ->
  setup env v name fs
  = mkResult
      [Mkdir (packageDir env);
       ConsoleLog ("📦 Creating placeholder package: " ++ name);
       ConsoleLog ("📁 Temp directory: " ++ packageDir env);
       WriteFile (join (packageDir env) "package.json") (manifest_text name);
       WriteFile (join (packageDir env) "README.md") (readmeContent name);
       ConsoleLog "✅ Created placeholder package files";
       ConsoleLog (nl ++ "📤 Publishing package to npm...");
       ExecSync (publishCmd name (access v)) (packageDir env);
       ConsoleError (nl ++ "❌ Failed to publish package");
       ConsoleError ("Error: " ++ msg);
       ConsoleLog (nl ++ "📁 Package files are still available at: " ++ packageDir env);
       ConsoleLog "You can try publishing manually:";
       ConsoleLog ("  cd " ++ packageDir env);
       ConsoleLog (manual_publish_line name (access v))]
      (generated_files env name fs) (Exit 1).
Proof using generation_ok.
  destruct generation_ok as (Hm & Hw1 & Hw2). intros Hd He.
  script_step. rewrite Hm, Hw1, Hw2, Hd, He. reflexivity.
Qed.

Lemma setup_published_cleaned :
  dry_run v = false ->
  execSync_error env (publishCmd name (access v)) (packageDir env) = None ->
  rm_error env (packageDir env) = None ->
  setup env v name fs
  = mkResult
      (published_events env v name
         ++ [Rm (packageDir env); ConsoleLog (nl ++ "🧹 Cleaned up temp directory")])
      (removed (packageDir env) (generated_files env name fs)) (Normal tt).
Proof using generation_ok.
  destruct generation_ok as (Hm & Hw1 & Hw2). intros Hd He Hr.
  script_step. rewrite Hm, Hw1, Hw2, Hd, He, Hr. reflexivity.
Qed.

Lemma setup_published_rm_failed (msg : string) :
  dry_run v = false ->
  execSync_error env (publishCmd name (access v)) (packageDir env) = None ->
  rm_error env (packageDir env) = Some msg ->
  setup env v name fs
  = mkResult
      (published_events env v name
         ++ [Rm (packageDir env);
             ConsoleWarn ("⚠️  Could not clean up temp directory: " ++ msg)])
      (generated_files env name fs) (Normal tt).
Proof using generation_ok.
  destruct generation_ok as (Hm & Hw1 & Hw2). intros Hd He Hr.
  script_step. rewrite Hm, Hw1, Hw2, Hd, He, Hr. reflexivity.
Qed.
End Scenarios.

(** ** Names of the grammar *)

Section Names.
Lemma all_chars_append (f : ascii -> bool) (s t : string) :
  all_chars f (s ++ t) = all_chars f s && all_chars f t.
Proof.
  induction s as [|c s IH]; [reflexivity|].
  rewrite append_cons. simpl. now rewrite IH, andb_assoc.
Qed.

Lemma all_chars_weaken (f g : ascii -> bool) (s : string) :
  (forall c, f c = true -> g c = true) ->
  all_chars f s = true -> all_chars g s = true.
Proof.
  intros Hfg. induction s as [|c s IH]; simpl; [reflexivity|].
  intros H. apply andb_true_iff in H. destruct H as [Hc Hs].
  now rewrite (Hfg _ Hc), IH.
Qed.

Lemma name_start_char (c : ascii) : name_start c = true -> name_char c = true.
Proof. destruct c as [[] [] [] [] [] [] [] []]; try discriminate; reflexivity. Qed.

Lemma name_char_safe (c : ascii) : name_char c = true -> safe_char c = true.
Proof. unfold safe_char. now intros ->. Qed.

Lemma segment_safe (s : string) : segment s -> all_chars safe_char s = true.
Proof.
  intros [c [t [-> [Hc Ht]]]]. simpl.
  rewrite (name_char_safe _ (name_start_char _ Hc)).
  apply (all_chars_weaken name_char); [apply name_char_safe | exact Ht].
Qed.

Lemma grammar_safe (s : string) : spec_name_grammar s -> all_chars safe_char s = true.
Proof.
  intros [H | [scope [name [-> [H1 H2]]]]]; [now apply segment_safe|].
  rewrite !all_chars_append, (segment_safe _ H1), (segment_safe _ H2). reflexivity.
Qed.

Lemma at_not_name_start (c : ascii) (t u : string) :
  String c t = "@" ++ u -> name_start c = true -> False.
Proof.
  rewrite append_cons. intros E. injection E as -> _. discriminate.
Qed.

(** For a name of the grammar, the test the script uses, a leading [@],
    tells whether the name is scoped. *)
Lemma startsWith_scoped (s : string) :
  test validPackageNameRegex s = true ->
  (startsWith s "@" = true <-> scoped s).
Proof.
  intros Hvalid. apply validation_grammar in Hvalid. unfold startsWith. split.
  - intros Hp. apply prefix_split in Hp. destruct Hp as [u Hu].
    destruct Hvalid as [[c [t [-> [Hc _]]]] | [scope [name [-> _]]]].
    + destruct (at_not_name_start _ _ _ Hu Hc).
    + exists scope, name. reflexivity.
  - intros [scope [name ->]]. apply prefix_append.
Qed.

Lemma escape_safe_char (c : ascii) :
  safe_char c = true -> JSON.escape_char c = String c EmptyString.
Proof. destruct c as [[] [] [] [] [] [] [] []]; try discriminate; reflexivity. Qed.

Lemma escape_safe (s : string) : all_chars safe_char s = true -> JSON.escape s = s.
Proof.
  induction s as [|c s IH]; simpl; [reflexivity|].
  intros H. apply andb_true_iff in H. destruct H as [Hc Hs].
  rewrite escape_safe_char, IH by assumption. reflexivity.
Qed.

Lemma escape_append (s t : string) :
  JSON.escape (s ++ t) = JSON.escape s ++ JSON.escape t.
Proof.
  induction s as [|c s IH]; [reflexivity|].
  rewrite append_cons. simpl. rewrite IH. now rewrite append_assoc.
Qed.

(** The manifest of a name that JSON quoting leaves as it is. *)
Lemma manifest_text_plain (name : string) :
  JSON.escape name = name -> manifest_text name = expected_manifest name.
Proof.
  intros E. unfold manifest_text, JSON.stringify, packageJson.
  cbv [JSON.serialize JSON.wrap map JSON.join_with JSON.spaces Nat.min fst snd
       JSON.quote].
  rewrite escape_append, E, !append_assoc. reflexivity.
Qed.
End Names.

(** ** Reports *)

Section Reports.
Lemma bind_trace_prefix (A B : Type) (m : js A) (k : A -> js B)
    (fs : gmap string node) :
  exists t, trace (bind m k fs) = (trace (m fs) ++ t)%list.
Proof.
  unfold bind. destruct (m fs) as [t fs' [a | msg | code]]; simpl.
  - destruct (k a fs') as [t' fs'' o]. simpl. eauto.
  - exists []. now rewrite app_nil_r.
  - exists []. now rewrite app_nil_r.
Qed.

Lemma writeFile_trace (env : environment) (path content : string)
    (fs : gmap string node) :
  trace (writeFile env path content fs) = [WriteFile path content].
Proof. unfold writeFile. now destruct (writeFile_error env path). Qed.

Lemma run_validated (env : environment) (fs : gmap string node)
    (tokens : list token) (name : string) :
  validated tokens name ->
  run env fs tokens = report_of (setup env (values_of tokens) name fs).
Proof. intros H. unfold run. now rewrite (cli_validated env fs tokens name H). Qed.
End Reports.

(** ** The model on the examples of the documentation *)

Example accepts_plain_name : test validPackageNameRegex "my-package" = true.
Proof. vm_compute. reflexivity. Qed.

Example accepts_scoped_name : test validPackageNameRegex "@myorg/my-package" = true.
Proof. vm_compute. reflexivity. Qed.

Example rejects_uppercase : test validPackageNameRegex "Invalid_Name!" = false.
Proof. vm_compute. reflexivity. Qed.

Example rejects_two_scopes : test validPackageNameRegex "@a/b/c" = false.
Proof. vm_compute. reflexivity. Qed.

Example rejects_leading_dot : test validPackageNameRegex ".hidden" = false.
Proof. vm_compute. reflexivity. Qed.

Example dry_run_of_scoped_name :
  let r := run quiet_env ∅ [Positional "@myorg/my-package"; OptDryRun] in
  exit_code r = 0%Z /\
  List.last (output r) (ConsoleLog EmptyString)
  = ConsoleLog "  npm publish --access public".
Proof. vm_compute. split; reflexivity. Qed.

Example publish_of_plain_name :
  let r := run quiet_env ∅ [Positional "my-package"] in
  exit_code r = 0%Z /\
  List.filter is_exec (output r)
  = [ExecSync "npm publish" "/tmp/npm-oidc-setup-0123456789abcdef"] /\
  disk r !! "/tmp/npm-oidc-setup-0123456789abcdef" = None.
Proof. vm_compute. repeat split; reflexivity. Qed.

(** * The claims *)

(** C2. The validation of the script accepts a string exactly when it is a
    name of the grammar [^(@[a-z0-9-~][a-z0-9-._~]*/)?[a-z0-9-~][a-z0-9-._~]*$];
    when the positional package name of an invocation is rejected by the
    validation (the invocation has got past the help and version flags), the
    process prints two lines on the error stream, the first one naming the
    input, exits with status 1, and leaves the file system as it was. *)
Theorem validation_accepts_grammar_rejects_cleanly (name : string) :
  (test validPackageNameRegex name = true <-> spec_name_grammar name) /\
  (forall (env : environment) (fs : gmap string node) (tokens : list token),
      help (values_of tokens) = false ->
      version (values_of tokens) = false ->
      nth_error (positionals_of tokens) 0 = Some name ->
      test validPackageNameRegex name = false ->
      exit_code (run env fs tokens) = 1%Z /\
      disk (run env fs tokens) = fs /\
      existsb is_fs_call (output (run env fs tokens)) = false /\
      exists line1 line2,
        output (run env fs tokens) = [ConsoleError line1; ConsoleError line2] /\
        (name <> EmptyString -> line1 = "Error: Invalid package name: " ++ name)).
Proof.
  split; [apply validation_grammar|].
  intros env fs tokens Hh Hv Hp Ht. unfold run.
  destruct (string_dec name EmptyString) as [-> | Hne].
  - rewrite (cli_missing env fs tokens Hh Hv (or_intror Hp)). simpl.
    repeat split. eexists _, _. split; [reflexivity|]. intros N. now destruct N.
  - rewrite (cli_invalid env fs tokens name Hh Hv Hp Hne Ht). simpl.
    repeat split. eexists _, _. split; reflexivity.
Qed.

Lemma validation_witness :
  exit_code (run quiet_env ∅ [Positional "Invalid_Name!"]) = 1%Z /\
  disk (run quiet_env ∅ [Positional "Invalid_Name!"]) = ∅.
Proof.
  destruct (validation_accepts_grammar_rejects_cleanly "Invalid_Name!") as [_ H].
  destruct (H quiet_env ∅ [Positional "Invalid_Name!"]) as (H1 & H2 & _);
    [reflexivity | reflexivity | reflexivity | vm_compute; reflexivity |].
  split; assumption.
Defined.

(** C3. For every accepted package name the manifest object has the name
    field equal to the input, version 0.0.1, a description that interpolates
    the name and the keywords oidc, trusted-publishing, setup; the text
    written to package.json is that object pretty-printed with two spaces
    and followed by a newline, with the name in it verbatim. *)
Theorem manifest_of_accepted_name (name : string)
    (Hvalid : test validPackageNameRegex name = true) :
  member "name" (packageJson name) = Some (JSON.Str name) /\
  member "version" (packageJson name) = Some (JSON.Str "0.0.1") /\
  member "description" (packageJson name)
    = Some (JSON.Str ("OIDC trusted publishing setup package for " ++ name)) /\
  member "keywords" (packageJson name)
    = Some (JSON.Arr [JSON.Str "oidc"; JSON.Str "trusted-publishing"; JSON.Str "setup"]) /\
  manifest_text name = expected_manifest name /\
  (forall (env : environment) (v : values) (fs : gmap string node),
      hd_error (trace (generate env v name fs))
      = Some (WriteFile (join (packageDir env) "package.json") (expected_manifest name))).
Proof.
  assert (manifest_text name = expected_manifest name) as E.
  { apply manifest_text_plain, escape_safe, grammar_safe, validation_grammar, Hvalid. }
  repeat split; try reflexivity; [exact E|].
  intros env v fs. unfold generate.
  destruct (bind_trace_prefix _ _
              (writeFile env (join (packageDir env) "package.json") (manifest_text name))
              (fun _ =>
                 (writeFile env (join (packageDir env) "README.md") (readmeContent name) ;;
                  console_log "✅ Created placeholder package files" ;;
                  if dry_run v then
                    console_log (nl ++ "🔍 Dry run mode - package created but not published") ;;
                    console_log ("📁 Package location: " ++ packageDir env) ;;
                    console_log (nl ++ "To publish manually:") ;;
                    console_log ("  cd " ++ packageDir env) ;;
                    console_log (manual_publish_line name (access v))
                  else publish env v name)%js) fs) as [t Ht].
  rewrite Ht, writeFile_trace, E. reflexivity.
Qed.

Lemma manifest_witness :
  manifest_text "@myorg/my-package" = expected_manifest "@myorg/my-package".
Proof.
  apply (manifest_of_accepted_name "@myorg/my-package"). vm_compute. reflexivity.
Defined.

(** C9. Every invocation that carries the help flag prints the usage text and
    exits with status 0 at once: the usage text is all the process prints, no
    file system call and no publish happen and the file system is untouched,
    whatever the positionals are. *)
Theorem help_exits_immediately (env : environment) (fs : gmap string node)
    (tokens : list token) (Hhelp : In OptHelp tokens) :
  run env fs tokens = mkReport 0 [ConsoleLog usage_text] fs.
Proof.
  unfold run. rewrite (cli_help env fs tokens); [reflexivity|].
  apply help_given, Hhelp.
Qed.

Lemma help_witness :
  run failing_publish_env ∅ [Positional "Invalid_Name!"; OptHelp]
  = mkReport 0 [ConsoleLog usage_text] ∅.
Proof.
  apply (help_exits_immediately failing_publish_env ∅
           [Positional "Invalid_Name!"; OptHelp]).
  simpl. auto.
Defined.

(** C4. For every accepted package name the publish command carries
    [--access <level>] exactly when the name is scoped and is the bare
    [npm publish] exactly when it is not; the same holds for the command
    printed in the manual instructions.  A run that publishes executes that
    command, once, in the package directory; a dry run executes nothing and
    ends by printing the manual command. *)
Theorem access_argument_iff_scoped (name : string)
    (Hvalid : test validPackageNameRegex name = true) :
  (forall level : string,
      (scoped name <-> publishCmd name level = "npm publish --access " ++ level) /\
      (~ scoped name <-> publishCmd name level = "npm publish") /\
      (scoped name <->
       manual_publish_line name level = "  npm publish --access " ++ level) /\
      (~ scoped name <-> manual_publish_line name level = "  npm publish")) /\
  (forall (env : environment) (fs : gmap string node) (tokens : list token),
      validated tokens name ->
      generation_succeeds env ->
      if dry_run (values_of tokens)
      then
        List.filter is_exec (output (run env fs tokens)) = [] /\
        List.last (output (run env fs tokens)) (ConsoleLog EmptyString)
        = ConsoleLog (manual_publish_line name (access (values_of tokens)))
      else
        List.filter is_exec (output (run env fs tokens))
        = [ExecSync (publishCmd name (access (values_of tokens))) (packageDir env)]).
Proof.
  pose proof (startsWith_scoped name Hvalid) as Hs.
  split.
  - intros level. unfold publishCmd, manual_publish_line.
    destruct (startsWith name "@") eqn:E.
    + assert (scoped name) as Hsc by (now apply Hs).
      repeat split; intros H; try reflexivity; try exact Hsc; try contradiction.
      * cbv [String.append] in H. discriminate.
      * cbv [String.append] in H. discriminate.
    + assert (~ scoped name) as Hns
          by (intros Hsc; apply Hs in Hsc; discriminate).
      repeat split; intros H; try reflexivity; try exact Hns; try contradiction.
      * cbv [String.append] in H. discriminate.
      * cbv [String.append] in H. discriminate.
  - intros env fs tokens Hval Hgen. rewrite (run_validated env fs tokens name Hval).
    destruct (dry_run (values_of tokens)) eqn:Hd.
    + rewrite (setup_dry_run env fs _ name Hgen Hd). split; reflexivity.
    + destruct (execSync_error env (publishCmd name (access (values_of tokens)))
                  (packageDir env)) as [msg|] eqn:He.
      * rewrite (setup_publish_failed env fs _ name Hgen msg Hd He). reflexivity.
      * destruct (rm_error env (packageDir env)) as [msg|] eqn:Hr.
        -- rewrite (setup_published_rm_failed env fs _ name Hgen msg Hd He Hr).
           reflexivity.
        -- rewrite (setup_published_cleaned env fs _ name Hgen Hd He Hr).
           reflexivity.
Qed.

Lemma access_argument_witness :
  List.filter is_exec
    (output (run quiet_env ∅ [Positional "@myorg/my-package"; OptAccess "restricted"]))
  = [ExecSync "npm publish --access restricted" "/tmp/npm-oidc-setup-0123456789abcdef"].
Proof.
  destruct (access_argument_iff_scoped "@myorg/my-package") as [_ H];
    [vm_compute; reflexivity|].
  apply (H quiet_env ∅ [Positional "@myorg/my-package"; OptAccess "restricted"]).
  - repeat split; vm_compute; reflexivity.
  - repeat split; reflexivity.
Defined.

(** ** Paths and the generated files *)

Section Paths.
Lemma join_inj (dir a b : string) : join dir a = join dir b -> a = b.
Proof.
  unfold join. intros H. apply append_cancel_l in H.
  rewrite !append_cons, !append_empty_l in H. now injection H.
Qed.

Lemma join_not_dir (dir a : string) : join dir a <> dir.
Proof.
  unfold join. intros H. apply (f_equal String.length) in H.
  rewrite !length_append in H. simpl in H. lia.
Qed.

Lemma under_join (dir a : string) : under dir (join dir a) = true.
Proof.
  unfold under, join. rewrite <- append_assoc, prefix_append. apply orb_true_r.
Qed.

Lemma under_self (dir : string) : under dir dir = true.
Proof. unfold under. now rewrite String.eqb_refl. Qed.

Variable env : environment.
Variable name : string.
Variable fs : gmap string node.

Lemma generated_manifest :
  generated_files env name fs !! join (packageDir env) "package.json"
  = Some (File (manifest_text name)).
Proof.
  unfold generated_files. rewrite lookup_insert_ne, lookup_insert_eq; [reflexivity|].
  intros H. apply join_inj in H. discriminate.
Qed.

Lemma generated_readme :
  generated_files env name fs !! join (packageDir env) "README.md"
  = Some (File (readmeContent name)).
Proof. unfold generated_files. apply lookup_insert_eq. Qed.

Lemma generated_directory :
  generated_files env name fs !! packageDir env = Some Directory.
Proof.
  unfold generated_files.
  rewrite !lookup_insert_ne, lookup_insert_eq by apply join_not_dir. reflexivity.
Qed.

Lemma generated_keeps (p : string) :
  is_Some (fs !! p) -> is_Some (generated_files env name fs !! p).
Proof.
  intros H. unfold generated_files. rewrite !lookup_insert_is_Some'. auto.
Qed.

Lemma generated_outside (p : string) :
  under (packageDir env) p = false -> generated_files env name fs !! p = fs !! p.
Proof.
  intros Hp. unfold generated_files.
  rewrite !lookup_insert_ne; [reflexivity | | |]; intros <-.
  - now rewrite under_self in Hp.
  - now rewrite under_join in Hp.
  - now rewrite under_join in Hp.
Qed.

Lemma removed_under (dir p : string) (m : gmap string node) :
  under dir p = true -> removed dir m !! p = None.
Proof.
  intros H. unfold removed. apply map_lookup_filter_None. right.
  intros x _. simpl. rewrite H. discriminate.
Qed.

Lemma removed_other (dir p : string) (m : gmap string node) :
  under dir p = false -> removed dir m !! p = m !! p.
Proof.
  intros H. unfold removed. destruct (m !! p) as [x|] eqn:E.
  - apply map_lookup_filter_Some. auto.
  - apply map_lookup_filter_None. left. exact E.
Qed.
End Paths.

(** ** Case analysis over the runs *)

(** The ways the script can end before the package name is accepted. *)
Ltac cli_scenarios env fs tokens name :=
  let Hh := fresh "Hh" in
  let Hv := fresh "Hv" in
  let Hp := fresh "Hp" in
  let Hn := fresh "Hn" in
  let Ht := fresh "Ht" in
  destruct (help (values_of tokens)) eqn:Hh;
  [ rewrite (cli_help env fs tokens Hh)
  | destruct (version (values_of tokens)) eqn:Hv;
    [ rewrite (cli_version env fs tokens Hh Hv)
    | destruct (nth_error (positionals_of tokens) 0) as [name|] eqn:Hp;
      [ destruct (string_dec name EmptyString) as [Hn|Hn];
        [ subst name; rewrite (cli_missing env fs tokens Hh Hv (or_intror Hp))
        | destruct (test validPackageNameRegex name) eqn:Ht;
          [ rewrite (cli_validated env fs tokens name
                       (conj Hh (conj Hv (conj Hp Ht))))
          | rewrite (cli_invalid env fs tokens name Hh Hv Hp Hn Ht) ] ]
      | rewrite (cli_missing env fs tokens Hh Hv (or_introl Hp)) ] ] ].

(** The ways [setup] can go, by the outcome of each collaborator. *)
Ltac setup_scenarios env fs v name :=
  let Hm := fresh "Hm" in
  let Hw1 := fresh "Hw1" in
  let Hw2 := fresh "Hw2" in
  let Hgen := fresh "Hgen" in
  let Hd := fresh "Hd" in
  let He := fresh "He" in
  let Hr := fresh "Hr" in
  destruct (mkdir_error env (packageDir env)) eqn:Hm;
  [ rewrite (setup_mkdir_failed env fs v name _ Hm)
  | destruct (writeFile_error env (join (packageDir env) "package.json")) eqn:Hw1;
    [ rewrite (setup_manifest_failed env fs v name _ Hm Hw1)
    | destruct (writeFile_error env (join (packageDir env) "README.md")) eqn:Hw2;
      [ rewrite (setup_readme_failed env fs v name _ Hm Hw1 Hw2)
      | pose proof (conj Hm (conj Hw1 Hw2) : generation_succeeds env) as Hgen;
        destruct (dry_run v) eqn:Hd;
        [ rewrite (setup_dry_run env fs v name Hgen Hd)
        | destruct (execSync_error env (publishCmd name (access v)) (packageDir env))
            eqn:He;
          [ rewrite (setup_publish_failed env fs v name Hgen _ Hd He)
          | destruct (rm_error env (packageDir env)) eqn:Hr;
            [ rewrite (setup_published_rm_failed env fs v name Hgen _ Hd He Hr)
            | rewrite (setup_published_cleaned env fs v name Hgen Hd He Hr) ] ] ] ] ] ].

(** C5. An invocation with the dry-run flag never runs the publish command
    and never removes anything: no path of the file system is lost.  When
    the package name is accepted and the directory and both files are
    written, the directory, the manifest and the notice document are on
    disk after the run and the exit status is 0. *)
Theorem dry_run_publishes_and_deletes_nothing (env : environment)
    (fs : gmap string node) (tokens : list token) (Hdry : In OptDryRun tokens) :
  List.filter is_exec (output (run env fs tokens)) = [] /\
  List.filter is_rm (output (run env fs tokens)) = [] /\
  (forall p, is_Some (fs !! p) -> is_Some (disk (run env fs tokens) !! p)) /\
  (forall name,
      validated tokens name ->
      generation_succeeds env ->
      exit_code (run env fs tokens) = 0%Z /\
      disk (run env fs tokens) !! packageDir env = Some Directory /\
      disk (run env fs tokens) !! join (packageDir env) "package.json"
      = Some (File (manifest_text name)) /\
      disk (run env fs tokens) !! join (packageDir env) "README.md"
      = Some (File (readmeContent name))).
Proof.
  apply dry_run_given in Hdry.
  split; [|split; [|split]].
  - unfold run. cli_scenarios env fs tokens name; try reflexivity.
    setup_scenarios env fs (values_of tokens) name; try reflexivity; congruence.
  - unfold run. cli_scenarios env fs tokens name; try reflexivity.
    setup_scenarios env fs (values_of tokens) name; try reflexivity; congruence.
  - intros p Hp. unfold run. cli_scenarios env fs tokens name; try exact Hp.
    setup_scenarios env fs (values_of tokens) name; try exact Hp; try congruence;
      simpl; rewrite ?lookup_insert_is_Some'; auto.
    apply generated_keeps, Hp.
  - intros name Hval Hgen. rewrite (run_validated env fs tokens name Hval).
    rewrite (setup_dry_run env fs _ name Hgen Hdry). simpl.
    split; [reflexivity|]. split; [apply generated_directory|].
    split; [apply generated_manifest | apply generated_readme].
Qed.

Lemma dry_run_witness :
  exit_code (run quiet_env ∅ [Positional "@myorg/my-package"; OptDryRun]) = 0%Z /\
  disk (run quiet_env ∅ [Positional "@myorg/my-package"; OptDryRun])
    !! "/tmp/npm-oidc-setup-0123456789abcdef" = Some Directory.
Proof.
  destruct (dry_run_publishes_and_deletes_nothing quiet_env ∅
              [Positional "@myorg/my-package"; OptDryRun]) as (_ & _ & _ & H).
  - simpl. auto.
  - destruct (H "@myorg/my-package") as (H1 & H2 & _).
    + repeat split; vm_compute; reflexivity.
    + repeat split; reflexivity.
    + split; assumption.
Defined.

(** C1, as stated, fails: after a failed publish of a non-dry-run invocation
    the process has exited with status 1 while the directory is still on
    disk and no removal warning was printed. *)
Lemma publish_failure_skips_cleanup :
  validated [Positional "my-package"] "my-package" /\
  ~ In OptDryRun [Positional "my-package"] /\
  execSync_error failing_publish_env "npm publish" (packageDir failing_publish_env)
  = Some "Command failed: npm publish" /\
  exit_code (run failing_publish_env ∅ [Positional "my-package"]) = 1%Z /\
  ~ cleanup_done (packageDir failing_publish_env)
      (run failing_publish_env ∅ [Positional "my-package"]).
Proof.
  assert (validated [Positional "my-package"] "my-package") as Hval
      by (repeat split; vm_compute; reflexivity).
  assert (generation_succeeds failing_publish_env) as Hgen
      by (repeat split; reflexivity).
  split; [exact Hval|]. split; [simpl; intros [H | []]; discriminate|].
  split; [reflexivity|].
  rewrite (run_validated _ _ _ _ Hval).
  rewrite (setup_publish_failed failing_publish_env ∅
             (values_of [Positional "my-package"]) "my-package" Hgen
             "Command failed: npm publish" eq_refl eq_refl).
  split; [reflexivity|]. unfold cleanup_done. simpl.
  intros [H | [msg H]].
  - rewrite generated_directory in H. discriminate.
  - repeat (destruct H as [H | H]; [discriminate|]). exact H.
Qed.

(** C1, amended. For every non-dry-run invocation in which the publish
    command fails, the process prints an error that includes the failure
    message, reminds where the files are, prints the manual publish
    instructions and exits with status 1 at once.  The cleanup step does not
    run on this path: nothing is removed, no warning is printed, and the
    directory with both files stays on disk. *)
Theorem publish_failure_reports_and_exits (env : environment)
    (fs : gmap string node) (tokens : list token) (name msg : string)
    (Hval : validated tokens name)
    (Hgen : generation_succeeds env)
    (Hpublish : ~ In OptDryRun tokens)
    (Hfail : execSync_error env (publishCmd name (access (values_of tokens)))
               (packageDir env) = Some msg) :
  exit_code (run env fs tokens) = 1%Z /\
  In (ConsoleError ("Error: " ++ msg)) (output (run env fs tokens)) /\
  In (ConsoleLog (nl ++ "📁 Package files are still available at: " ++ packageDir env))
     (output (run env fs tokens)) /\
  In (ConsoleLog ("  cd " ++ packageDir env)) (output (run env fs tokens)) /\
  List.last (output (run env fs tokens)) (ConsoleLog EmptyString)
  = ConsoleLog (manual_publish_line name (access (values_of tokens))) /\
  List.filter is_rm (output (run env fs tokens)) = [] /\
  List.filter is_warning (output (run env fs tokens)) = [] /\
  disk (run env fs tokens) = generated_files env name fs.
Proof.
  apply dry_run_not_given in Hpublish.
  rewrite (run_validated env fs tokens name Hval).
  rewrite (setup_publish_failed env fs _ name Hgen msg Hpublish Hfail).
  simpl. repeat split; auto 20.
Qed.

Lemma publish_failure_witness :
  exit_code (run failing_publish_env ∅ [Positional "my-package"]) = 1%Z /\
  disk (run failing_publish_env ∅ [Positional "my-package"])
  = generated_files failing_publish_env "my-package" ∅.
Proof.
  destruct (publish_failure_reports_and_exits failing_publish_env ∅
              [Positional "my-package"] "my-package" "Command failed: npm publish")
    as (H1 & _ & _ & _ & _ & _ & _ & H2).
  - repeat split; vm_compute; reflexivity.
  - repeat split; reflexivity.
  - simpl. intros [H | []]. discriminate.
  - reflexivity.
  - split; assumption.
Defined.

(** C6, as stated, fails: the publish command succeeds in a non-dry-run
    invocation, the removal of the directory fails, and the directory and
    its files are still on disk when the process ends with status 0. *)
Lemma successful_publish_may_leave_directory :
  validated [Positional "my-package"] "my-package" /\
  ~ In OptDryRun [Positional "my-package"] /\
  execSync_error failing_rm_env "npm publish" (packageDir failing_rm_env) = None /\
  exit_code (run failing_rm_env ∅ [Positional "my-package"]) = 0%Z /\
  disk (run failing_rm_env ∅ [Positional "my-package"]) !! packageDir failing_rm_env
  = Some Directory /\
  disk (run failing_rm_env ∅ [Positional "my-package"])
    !! join (packageDir failing_rm_env) "package.json"
  = Some (File (manifest_text "my-package")).
Proof.
  assert (validated [Positional "my-package"] "my-package") as Hval
      by (repeat split; vm_compute; reflexivity).
  assert (generation_succeeds failing_rm_env) as Hgen
      by (repeat split; reflexivity).
  split; [exact Hval|]. split; [simpl; intros [H | []]; discriminate|].
  split; [reflexivity|].
  rewrite (run_validated _ _ _ _ Hval).
  rewrite (setup_published_rm_failed failing_rm_env ∅
             (values_of [Positional "my-package"]) "my-package" Hgen
             "EBUSY: resource busy or locked" eq_refl eq_refl eq_refl).
  split; [reflexivity|]. simpl.
  split; [apply generated_directory | apply generated_manifest].
Qed.

(** C6, amended. For every non-dry-run invocation in which the publish
    command succeeds, scoped name or not, the removal of the temporary
    directory is attempted after the publish and the exit status is 0.  When
    the removal succeeds, the directory and everything below it are gone;
    when it fails, a warning is printed and the generated files stay. *)
Theorem successful_publish_attempts_cleanup (env : environment)
    (fs : gmap string node) (tokens : list token) (name : string)
    (Hval : validated tokens name)
    (Hgen : generation_succeeds env)
    (Hpublish : ~ In OptDryRun tokens)
    (Hok : execSync_error env (publishCmd name (access (values_of tokens)))
             (packageDir env) = None) :
  exit_code (run env fs tokens) = 0%Z /\
  (exists last_event,
      output (run env fs tokens)
      = (published_events env (values_of tokens) name
           ++ [Rm (packageDir env); last_event])%list) /\
  (rm_error env (packageDir env) = None ->
   forall p,
     disk (run env fs tokens) !! p
     = if under (packageDir env) p then None else fs !! p) /\
  (forall msg,
      rm_error env (packageDir env) = Some msg ->
      In (ConsoleWarn ("⚠️  Could not clean up temp directory: " ++ msg))
         (output (run env fs tokens)) /\
      disk (run env fs tokens) = generated_files env name fs).
Proof.
  apply dry_run_not_given in Hpublish.
  rewrite (run_validated env fs tokens name Hval).
  destruct (rm_error env (packageDir env)) as [msg|] eqn:Hr.
  - rewrite (setup_published_rm_failed env fs _ name Hgen msg Hpublish Hok Hr).
    simpl. split; [reflexivity|]. split; [eauto|]. split; [discriminate|].
    intros msg' E. injection E as <-. split; [|reflexivity].
    repeat first [left; reflexivity | right].
  - rewrite (setup_published_cleaned env fs _ name Hgen Hpublish Hok Hr).
    simpl. split; [reflexivity|]. split; [eauto|]. split; [|discriminate].
    intros _ p. destruct (under (packageDir env) p) eqn:Hp.
    + apply removed_under, Hp.
    + rewrite (removed_other _ _ _ Hp). apply generated_outside, Hp.
Qed.

Lemma successful_publish_witness :
  exit_code (run quiet_env ∅ [Positional "@myorg/my-package"]) = 0%Z /\
  disk (run quiet_env ∅ [Positional "@myorg/my-package"])
    !! "/tmp/npm-oidc-setup-0123456789abcdef/package.json" = None.
Proof.
  destruct (successful_publish_attempts_cleanup quiet_env ∅
              [Positional "@myorg/my-package"] "@myorg/my-package")
    as (H1 & _ & H2 & _).
  - repeat split; vm_compute; reflexivity.
  - repeat split; reflexivity.
  - simpl. intros [H | []]. discriminate.
  - reflexivity.
  - split; [exact H1|]. rewrite H2; reflexivity.
Defined.

(** C7, as stated, fails: an invocation is parsed with an access value that
    is neither public nor restricted, and the run proceeds to publish with
    it. *)
Lemma access_value_is_not_checked :
  ~ access_level (access (values_of [OptAccess "bogus"; Positional "@myorg/my-package"])) /\
  In (ExecSync "npm publish --access bogus" (packageDir quiet_env))
     (output (run quiet_env ∅ [OptAccess "bogus"; Positional "@myorg/my-package"])).
Proof.
  split.
  - intros [H | H]; discriminate.
  - assert (validated [OptAccess "bogus"; Positional "@myorg/my-package"]
              "@myorg/my-package") as Hval
        by (repeat split; vm_compute; reflexivity).
    assert (generation_succeeds quiet_env) as Hgen by (repeat split; reflexivity).
    rewrite (run_validated _ _ _ _ Hval).
    rewrite (setup_published_cleaned quiet_env ∅
               (values_of [OptAccess "bogus"; Positional "@myorg/my-package"])
               "@myorg/my-package" Hgen eq_refl eq_refl eq_refl).
    simpl. auto 10.
Qed.

(** C7, amended. For every parsed invocation the access option holds the
    value of the last [--access] given, whatever string that is, and public
    when none is given.  The value is not checked: a non-dry-run invocation
    with an accepted scoped name runs the publish command with it. *)
Theorem access_is_last_given_or_public (tokens : list token) :
  access (values_of tokens) = List.last (given_access tokens) "public" /\
  (given_access tokens = [] -> access (values_of tokens) = "public") /\
  (forall a : string, access (values_of (tokens ++ [OptAccess a])) = a) /\
  (forall (env : environment) (fs : gmap string node) (name : string),
      validated tokens name ->
      generation_succeeds env ->
      ~ In OptDryRun tokens ->
      scoped name ->
      List.filter is_exec (output (run env fs tokens))
      = [ExecSync ("npm publish --access " ++ access (values_of tokens))
           (packageDir env)]).
Proof.
  split; [apply access_given|]. split; [|split].
  - intros E. now rewrite access_given, E.
  - intros a. unfold values_of. now rewrite fold_left_app.
  - intros env fs name Hval Hgen Hpublish Hscoped.
    apply dry_run_not_given in Hpublish.
    assert (publishCmd name (access (values_of tokens))
            = "npm publish --access " ++ access (values_of tokens)) as Hcmd.
    { unfold publishCmd. destruct Hval as (_ & _ & _ & Ht).
      apply (startsWith_scoped name Ht) in Hscoped. now rewrite Hscoped. }
    rewrite <- Hcmd. rewrite (run_validated env fs tokens name Hval).
    destruct (execSync_error env (publishCmd name (access (values_of tokens)))
                (packageDir env)) as [msg|] eqn:He.
    + rewrite (setup_publish_failed env fs _ name Hgen msg Hpublish He). reflexivity.
    + destruct (rm_error env (packageDir env)) as [msg|] eqn:Hr.
      * rewrite (setup_published_rm_failed env fs _ name Hgen msg Hpublish He Hr).
        reflexivity.
      * rewrite (setup_published_cleaned env fs _ name Hgen Hpublish He Hr).
        reflexivity.
Qed.

Lemma access_witness :
  List.filter is_exec
    (output (run quiet_env ∅ [Positional "@myorg/my-package"; OptAccess "bogus"]))
  = [ExecSync "npm publish --access bogus" (packageDir quiet_env)].
Proof.
  destruct (access_is_last_given_or_public
              [Positional "@myorg/my-package"; OptAccess "bogus"]) as (_ & _ & _ & H).
  apply (H quiet_env ∅ "@myorg/my-package").
  - repeat split; vm_compute; reflexivity.
  - repeat split; reflexivity.
  - simpl. intros [E | [E | []]]; discriminate.
  - exists "myorg", "my-package". reflexivity.
Defined.

(** The exit status does not depend on how the removal of the directory
    goes. *)
Lemma exit_code_ignores_rm (env : environment) (e : string -> option string)
    (fs : gmap string node) (tokens : list token) :
  exit_code (run (with_rm_error env e) fs tokens) = exit_code (run env fs tokens).
Proof.
  unfold run. set (env' := with_rm_error env e).
  cli_scenarios env fs tokens name.
  - now rewrite (cli_help env' fs tokens Hh).
  - now rewrite (cli_version env' fs tokens Hh Hv).
  - now rewrite (cli_missing env' fs tokens Hh Hv (or_intror Hp)).
  - rewrite (cli_validated env' fs tokens name (conj Hh (conj Hv (conj Hp Ht)))).
    setup_scenarios env fs (values_of tokens) name.
    + now rewrite (setup_mkdir_failed env' fs _ name _ Hm).
    + now rewrite (setup_manifest_failed env' fs _ name _ Hm Hw1).
    + now rewrite (setup_readme_failed env' fs _ name _ Hm Hw1 Hw2).
    + now rewrite (setup_dry_run env' fs _ name Hgen Hd).
    + now rewrite (setup_publish_failed env' fs _ name Hgen _ Hd He).
    + destruct (e (packageDir env)) as [msg|] eqn:Hr'.
      * now rewrite (setup_published_rm_failed env' fs _ name Hgen msg Hd He Hr').
      * now rewrite (setup_published_cleaned env' fs _ name Hgen Hd He Hr').
    + destruct (e (packageDir env)) as [msg|] eqn:Hr'.
      * now rewrite (setup_published_rm_failed env' fs _ name Hgen msg Hd He Hr').
      * now rewrite (setup_published_cleaned env' fs _ name Hgen Hd He Hr').
  - now rewrite (cli_invalid env' fs tokens name Hh Hv Hp Hn Ht).
  - now rewrite (cli_missing env' fs tokens Hh Hv (or_introl Hp)).
Qed.

(** C8. In every invocation in which the removal of the temporary directory
    is attempted and fails, the failure is reported as a warning, the last
    thing the process prints, no error escapes, and the exit status is the
    one the run has when the removal succeeds, namely 0. *)
Theorem cleanup_failure_only_warns (env : environment) (fs : gmap string node)
    (tokens : list token) (msg : string)
    (Hrm : rm_error env (packageDir env) = Some msg)
    (Hattempt : In (Rm (packageDir env)) (output (run env fs tokens))) :
  List.last (output (run env fs tokens)) (ConsoleLog EmptyString)
  = ConsoleWarn ("⚠️  Could not clean up temp directory: " ++ msg) /\
  (forall m, ~ In (UncaughtException m) (output (run env fs tokens))) /\
  exit_code (run env fs tokens) = 0%Z /\
  exit_code (run env fs tokens)
  = exit_code (run (with_rm_error env (fun _ => None)) fs tokens).
Proof.
  rewrite (exit_code_ignores_rm env (fun _ => None) fs tokens).
  revert Hattempt. unfold run.
  cli_scenarios env fs tokens name;
    try (simpl; intros Hin; exfalso;
         repeat (destruct Hin as [Hin | Hin]; [discriminate|]); exact Hin).
  setup_scenarios env fs (values_of tokens) name;
    try (simpl; intros Hin; exfalso;
         repeat (destruct Hin as [Hin | Hin]; [discriminate|]); exact Hin).
  injection Hrm as ->. simpl. intros _. repeat split.
  intros m Hin. repeat (destruct Hin as [Hin | Hin]; [discriminate|]). exact Hin.
Qed.

Lemma cleanup_failure_witness :
  exit_code (run failing_rm_env ∅ [Positional "my-package"])
  = exit_code (run (with_rm_error failing_rm_env (fun _ => None)) ∅
                 [Positional "my-package"]).
Proof.
  apply (cleanup_failure_only_warns failing_rm_env ∅ [Positional "my-package"]
           "EBUSY: resource busy or locked").
  - reflexivity.
  - vm_compute. auto 20.
Defined.

(** What a run writes once the name is accepted and the writes succeed. *)
Lemma writes_of_run (env : environment) (fs : gmap string node)
    (tokens : list token) (name : string) :
  validated tokens name ->
  generation_succeeds env ->
  writes (output (run env fs tokens))
  = [(join (packageDir env) "package.json", manifest_text name);
     (join (packageDir env) "README.md", readmeContent name)].
Proof.
  intros Hval Hgen. rewrite (run_validated env fs tokens name Hval).
  destruct (dry_run (values_of tokens)) eqn:Hd.
  - now rewrite (setup_dry_run env fs _ name Hgen Hd).
  - destruct (execSync_error env (publishCmd name (access (values_of tokens)))
                (packageDir env)) as [msg|] eqn:He.
    + now rewrite (setup_publish_failed env fs _ name Hgen msg Hd He).
    + destruct (rm_error env (packageDir env)) as [msg|] eqn:Hr.
      * now rewrite (setup_published_rm_failed env fs _ name Hgen msg Hd He Hr).
      * now rewrite (setup_published_cleaned env fs _ name Hgen Hd He Hr).
Qed.

(** C10. The contents of the two generated files are a function of the
    package name alone: two invocations with the same accepted name, whatever
    their flags, environments and file systems, write the same two contents,
    the manifest of the name and the notice document of the name, to
    package.json and README.md of their directories. *)
Theorem generated_contents_depend_on_name_only (name : string)
    (env1 env2 : environment) (fs1 fs2 : gmap string node)
    (tokens1 tokens2 : list token)
    (Hval1 : validated tokens1 name) (Hval2 : validated tokens2 name)
    (Hgen1 : generation_succeeds env1) (Hgen2 : generation_succeeds env2) :
  map snd (writes (output (run env1 fs1 tokens1)))
  = map snd (writes (output (run env2 fs2 tokens2))) /\
  map snd (writes (output (run env1 fs1 tokens1)))
  = [manifest_text name; readmeContent name] /\
  map fst (writes (output (run env1 fs1 tokens1)))
  = [join (packageDir env1) "package.json"; join (packageDir env1) "README.md"].
Proof.
  rewrite (writes_of_run env1 fs1 tokens1 name Hval1 Hgen1).
  rewrite (writes_of_run env2 fs2 tokens2 name Hval2 Hgen2).
  repeat split.
Qed.

Lemma generated_contents_witness :
  map snd (writes (output (run quiet_env ∅ [Positional "my-package"; OptDryRun])))
  = map snd (writes (output (run failing_publish_env ∅
                               [OptAccess "restricted"; Positional "my-package"]))).
Proof.
  apply (generated_contents_depend_on_name_only "my-package").
  - repeat split; vm_compute; reflexivity.
  - repeat split; vm_compute; reflexivity.
  - repeat split; reflexivity.
  - repeat split; reflexivity.
Defined.

(** * Further properties of the script *)

(** ** Options *)

Lemma fold_store_version (tokens : list token) (v : values) :
  version (fold_left store_option tokens v)
  = version v || existsb (fun t => match t with OptVersion => true | _ => false end) tokens.
Proof.
  revert v. induction tokens as [|t tokens IH]; intros v; simpl.
  - now rewrite orb_false_r.
  - rewrite IH. destruct t; simpl; try reflexivity.
    now rewrite orb_true_r.
Qed.

(** ** Endings before the package name is accepted *)

(** X1. An invocation with the version flag and without the help flag prints
    the version of the tool and exits with status 0; nothing else is
    printed, the package name is not looked at and the file system is
    untouched. *)
Theorem version_prints_and_exits (env : environment) (fs : gmap string node)
    (tokens : list token)
    (Hversion : In OptVersion tokens) (Hnohelp : ~ In OptHelp tokens) :
  run env fs tokens = mkReport 0 [ConsoleLog (own_version env)] fs.
Proof.
  unfold run. rewrite (cli_version env fs tokens); [reflexivity | |].
  - destruct (help (values_of tokens)) eqn:E; [|reflexivity].
    apply help_given in E. contradiction.
  - unfold values_of. rewrite fold_store_version. simpl.
    apply existsb_exists. exists OptVersion. auto.
Qed.

Lemma version_witness :
  run quiet_env ∅ [OptVersion; Positional "Invalid_Name!"]
  = mkReport 0 [ConsoleLog "1.0.0"] ∅.
Proof.
  apply (version_prints_and_exits quiet_env ∅ [OptVersion; Positional "Invalid_Name!"]).
  - simpl. auto.
  - simpl. intros [H | [H | []]]; discriminate.
Defined.

(** X2. Without help and version flags, an invocation with no positional, or
    with the empty string as first positional, prints the two lines of the
    missing-name error on the error stream and exits with status 1, the
    file system untouched. *)
Theorem missing_name_is_an_error (env : environment) (fs : gmap string node)
    (tokens : list token)
    (Hhelp : help (values_of tokens) = false)
    (Hversion : version (values_of tokens) = false)
    (Hmissing : hd EmptyString (positionals_of tokens) = EmptyString) :
  run env fs tokens
  = mkReport 1
      [ConsoleError "Error: Package name is required";
       ConsoleError "Usage: setup-npm-trusted-publish <package-name>"]
      fs.
Proof.
  unfold run. rewrite (cli_missing env fs tokens Hhelp Hversion); [reflexivity|].
  destruct (positionals_of tokens) as [|p ps]; [left; reflexivity|].
  right. simpl in *. now subst p.
Qed.

Lemma missing_name_witness :
  exit_code (run quiet_env ∅ [OptDryRun; OptAccess "restricted"]) = 1%Z.
Proof.
  rewrite (missing_name_is_an_error quiet_env ∅ [OptDryRun; OptAccess "restricted"]);
    reflexivity.
Defined.

(** X3. Only the first positional is used: a further positional after it
    changes nothing of the run. *)
Theorem further_positionals_are_ignored (env : environment) (fs : gmap string node)
    (tokens : list token) (extra : string)
    (Hfirst : positionals_of tokens <> []) :
  run env fs (tokens ++ [Positional extra]) = run env fs tokens.
Proof.
  unfold run, cli, parseArgs.
  assert (values_of (tokens ++ [Positional extra]) = values_of tokens) as ->
      by (unfold values_of; now rewrite fold_left_app).
  assert (nth_error (positionals_of (tokens ++ [Positional extra])) 0
          = nth_error (positionals_of tokens) 0) as ->; [|reflexivity].
  unfold positionals_of in *. rewrite flat_map_app.
  destruct (flat_map _ tokens); [contradiction | reflexivity].
Qed.

Lemma further_positionals_witness :
  run quiet_env ∅ ([Positional "my-package"] ++ [Positional "other"])
  = run quiet_env ∅ [Positional "my-package"].
Proof.
  apply (further_positionals_are_ignored quiet_env ∅ [Positional "my-package"] "other").
  simpl. discriminate.
Defined.

(** ** Failures while the package is set up *)



(** X5. When writing the manifest or the notice document fails, in dry-run
    mode or not, the process prints the error with its message and exits
    with status 1 at once: the publish command is not run and the cleanup
    does not happen, so the directory that was created stays on disk. *)
Theorem write_failure_exits_without_cleanup (env : environment)
    (fs : gmap string node) (tokens : list token) (name msg : string)
    (Hval : validated tokens name)
    (Hmkdir : mkdir_error env (packageDir env) = None)
    (Hwrite :
       writeFile_error env (join (packageDir env) "package.json") = Some msg \/
       (writeFile_error env (join (packageDir env) "package.json") = None /\
        writeFile_error env (join (packageDir env) "README.md") = Some msg)) :
  exit_code (run env fs tokens) = 1%Z /\
  List.last (output (run env fs tokens)) (ConsoleLog EmptyString)
  = ConsoleError (nl ++ "❌ Error: " ++ msg) /\
  List.filter is_exec (output (run env fs tokens)) = [] /\
  List.filter is_rm (output (run env fs tokens)) = [] /\
  disk (run env fs tokens) !! packageDir env = Some Directory /\
  disk (run env fs tokens) !! join (packageDir env) "README.md"
  = fs !! join (packageDir env) "README.md".
Proof.
  rewrite (run_validated env fs tokens name Hval).
  destruct Hwrite as [Hw1 | [Hw1 Hw2]].
  - rewrite (setup_manifest_failed env fs _ name msg Hmkdir Hw1). simpl.
    repeat split.
    + apply lookup_insert_eq.
    + apply lookup_insert_ne. intros E. symmetry in E. now apply join_not_dir in E.
  - rewrite (setup_readme_failed env fs _ name msg Hmkdir Hw1 Hw2). simpl.
    repeat split.
    + rewrite lookup_insert_ne by apply join_not_dir. apply lookup_insert_eq.
    + rewrite !lookup_insert_ne; [reflexivity | |].
      * intros E. symmetry in E. now apply join_not_dir in E.
      * intros E. apply join_inj in E. discriminate.
Qed.

Lemma write_failure_witness :
  exit_code (run failing_readme_env ∅ [Positional "my-package"]) = 1%Z /\
  disk (run failing_readme_env ∅ [Positional "my-package"])
    !! packageDir failing_readme_env = Some Directory.
Proof.
  destruct (write_failure_exits_without_cleanup failing_readme_env ∅
              [Positional "my-package"] "my-package"
              "ENOSPC: no space left on device") as (H1 & _ & _ & _ & H2 & _).
  - repeat split; vm_compute; reflexivity.
  - reflexivity.
  - right. split; reflexivity.
  - split; assumption.
Defined.

(** ** The exit status and the error stream *)

(** X6. The exit status is 0 or 1, and it is 0 exactly when help or the
    version was asked for, or the name is accepted, the directory and both
    files are written and either the run is a dry run or the publish command
    succeeds. *)
Theorem exit_status_characterised (env : environment) (fs : gmap string node)
    (tokens : list token) :
  (exit_code (run env fs tokens) = 0%Z \/ exit_code (run env fs tokens) = 1%Z) /\
  (exit_code (run env fs tokens) = 0%Z <->
   help (values_of tokens) = true \/
   version (values_of tokens) = true \/
   exists name,
     validated tokens name /\ generation_succeeds env /\
     (dry_run (values_of tokens) = true \/
      publish_succeeds env (values_of tokens) name)).
Proof.
  split.
  - unfold run. cli_scenarios env fs tokens name; auto.
    setup_scenarios env fs (values_of tokens) name; auto.
  - split.
    + unfold run. cli_scenarios env fs tokens name; auto; try discriminate.
      assert (validated tokens name) as Hval by (repeat split; assumption).
      setup_scenarios env fs (values_of tokens) name; try discriminate;
        intros _; right; right; exists name; (split; [exact Hval|]);
        (split; [exact Hgen|]); auto.
    + intros [Hh | [Hv | (name & Hval & Hgen & Hend)]].
      * unfold run. now rewrite (cli_help env fs tokens Hh).
      * unfold run. destruct (help (values_of tokens)) eqn:Hh.
        -- now rewrite (cli_help env fs tokens Hh).
        -- now rewrite (cli_version env fs tokens Hh Hv).
      * rewrite (run_validated env fs tokens name Hval).
        destruct (dry_run (values_of tokens)) eqn:Hd.
        -- now rewrite (setup_dry_run env fs _ name Hgen Hd).
        -- destruct Hend as [Hend | Hok]; [discriminate|].
           destruct (rm_error env (packageDir env)) as [msg|] eqn:Hr.
           ++ now rewrite (setup_published_rm_failed env fs _ name Hgen msg Hd Hok Hr).
           ++ now rewrite (setup_published_cleaned env fs _ name Hgen Hd Hok Hr).
Qed.

Lemma exit_status_witness :
  exit_code (run quiet_env ∅ [Positional "my-package"; OptDryRun]) = 0%Z.
Proof.
  destruct (exit_status_characterised quiet_env ∅ [Positional "my-package"; OptDryRun])
    as [_ H].
  apply H. right. right. exists "my-package". split; [|split].
  - repeat split; vm_compute; reflexivity.
  - repeat split; reflexivity.
  - left. reflexivity.
Defined.

(** X7. A run reports an error, a [console.error] line or an uncaught
    exception, exactly when it exits with status 1: a failing run is never
    silent and a successful run never prints an error. *)
Theorem errors_reported_iff_failure (env : environment) (fs : gmap string node)
    (tokens : list token) :
  existsb is_error_event (output (run env fs tokens))
  = negb (Z.eqb (exit_code (run env fs tokens)) 0).
Proof.
  unfold run. cli_scenarios env fs tokens name; try reflexivity.
  setup_scenarios env fs (values_of tokens) name; reflexivity.
Qed.

(** ** The run stays inside its directory *)



(** ** The order of the external calls *)

(** X9. The external calls of a run are an initial part of the sequence
    mkdir, write package.json, write README.md, publish, remove, each made
    at most once and in this order; a dry run stops after the writes at the
    latest. *)
Theorem external_calls_in_order (env : environment) (fs : gmap string node)
    (tokens : list token) :
  exists k,
    calls (output (run env fs tokens))
    = firstn k (external_calls env (values_of tokens)
                  (hd EmptyString (positionals_of tokens))) /\
    (dry_run (values_of tokens) = true -> k <= 3).
Proof.
  unfold run. cli_scenarios env fs tokens name;
    try (exists 0; split; [reflexivity | lia]).
  assert (hd EmptyString (positionals_of tokens) = name) as ->
      by (destruct (positionals_of tokens); simpl in *; congruence).
  setup_scenarios env fs (values_of tokens) name.
  - exists 1. split; [reflexivity | lia].
  - exists 2. split; [reflexivity | lia].
  - exists 3. split; [reflexivity | lia].
  - exists 3. split; [reflexivity | lia].
  - exists 4. split; [reflexivity | discriminate].
  - exists 5. split; [reflexivity | discriminate].
  - exists 5. split; [reflexivity | discriminate].
Qed.

(** X10. The publish command is run exactly when the name is accepted, the
    directory and both files have been written and the run is not a dry
    run: a package that is not completely generated is never published. *)
Theorem publish_runs_iff_generated (env : environment) (fs : gmap string node)
    (tokens : list token) :
  List.filter is_exec (output (run env fs tokens)) <> [] <->
  exists name,
    validated tokens name /\ generation_succeeds env /\
    dry_run (values_of tokens) = false.
Proof.
  split.
  - unfold run. cli_scenarios env fs tokens name;
      try (intros H; now destruct H).
    assert (validated tokens name) as Hval by (repeat split; assumption).
    setup_scenarios env fs (values_of tokens) name;
      try (intros H; now destruct H); intros _; exists name; auto.
  - intros (name & Hval & Hgen & Hd). rewrite (run_validated env fs tokens name Hval).
    destruct (execSync_error env (publishCmd name (access (values_of tokens)))
                (packageDir env)) as [msg|] eqn:He.
    + now rewrite (setup_publish_failed env fs _ name Hgen msg Hd He).
    + destruct (rm_error env (packageDir env)) as [msg|] eqn:Hr.
      * now rewrite (setup_published_rm_failed env fs _ name Hgen msg Hd He Hr).
      * now rewrite (setup_published_cleaned env fs _ name Hgen Hd He Hr).
Qed.

Lemma publish_runs_witness :
  List.filter is_exec (output (run quiet_env ∅ [Positional "my-package"])) <> [].
Proof.
  apply (publish_runs_iff_generated quiet_env ∅ [Positional "my-package"]).
  exists "my-package". split; [|split].
  - repeat split; vm_compute; reflexivity.
  - repeat split; reflexivity.
  - reflexivity.
Defined.

(** X11. The removal of the directory is attempted exactly when the publish
    command has run and succeeded: after a failed write or a failed publish
    and in a dry run, nothing is ever removed. *)
Theorem removal_iff_published (env : environment) (fs : gmap string node)
    (tokens : list token) :
  List.filter is_rm (output (run env fs tokens)) <> [] <->
  exists name,
    validated tokens name /\ generation_succeeds env /\
    dry_run (values_of tokens) = false /\
    publish_succeeds env (values_of tokens) name.
Proof.
  split.
  - unfold run. cli_scenarios env fs tokens name;
      try (intros H; now destruct H).
    assert (validated tokens name) as Hval by (repeat split; assumption).
    setup_scenarios env fs (values_of tokens) name;
      try (intros H; now destruct H); intros _; exists name; auto.
  - intros (name & Hval & Hgen & Hd & He). rewrite (run_validated env fs tokens name Hval).
    destruct (rm_error env (packageDir env)) as [msg|] eqn:Hr.
    + now rewrite (setup_published_rm_failed env fs _ name Hgen msg Hd He Hr).
    + now rewrite (setup_published_cleaned env fs _ name Hgen Hd He Hr).
Qed.

Lemma removal_witness :
  List.filter is_rm (output (run failing_rm_env ∅ [Positional "my-package"])) <> [].
Proof.
  apply (removal_iff_published failing_rm_env ∅ [Positional "my-package"]).
  exists "my-package". split; [|split; [|split]].
  - repeat split; vm_compute; reflexivity.
  - repeat split; reflexivity.
  - reflexivity.
  - reflexivity.
Defined.



(** ** The manual instructions and the access option *)

Lemma manual_line_is_command (name level : string) :
  manual_publish_line name level = "  " ++ publishCmd name level.
Proof.
  unfold manual_publish_line, publishCmd. now destruct (startsWith name "@").
Qed.

(** X13. When a run has executed the publish command and exits with status
    1, the manual instructions it prints repeat that very command and the
    working directory it was run in: a [cd] line with the directory and, as
    the last line, the command itself. *)
Theorem fallback_repeats_failed_command (env : environment) (fs : gmap string node)
    (tokens : list token) (command cwd : string)
    (Hrun : In (ExecSync command cwd) (output (run env fs tokens)))
    (Hfailed : exit_code (run env fs tokens) = 1%Z) :
  In (ConsoleLog ("  cd " ++ cwd)) (output (run env fs tokens)) /\
  List.last (output (run env fs tokens)) (ConsoleLog EmptyString)
  = ConsoleLog ("  " ++ command).
Proof.
  revert Hrun Hfailed. unfold run.
  cli_scenarios env fs tokens name;
    try (simpl; intros Hin; exfalso;
         repeat (destruct Hin as [Hin | Hin]; [discriminate|]); exact Hin).
  setup_scenarios env fs (values_of tokens) name;
    try (simpl; intros Hin; exfalso;
         repeat (destruct Hin as [Hin | Hin]; [discriminate|]); exact Hin);
    try (intros _ Hexit; discriminate Hexit).
  simpl. intros Hin _.
  repeat (destruct Hin as [Hin | Hin]; [try discriminate|]); [|destruct Hin].
  injection Hin as <- <-. rewrite manual_line_is_command.
  split; [|reflexivity]. repeat first [left; reflexivity | right].
Qed.

Lemma fallback_witness :
  List.last (output (run failing_publish_env ∅
                       [Positional "@myorg/my-package"; OptAccess "restricted"]))
    (ConsoleLog EmptyString)
  = ConsoleLog "  npm publish --access restricted".
Proof.
  apply (fallback_repeats_failed_command failing_publish_env ∅
           [Positional "@myorg/my-package"; OptAccess "restricted"]
           "npm publish --access restricted"
           "/tmp/npm-oidc-setup-0123456789abcdef").
  - vm_compute. auto 20.
  - vm_compute. reflexivity.
Defined.

Lemma setup_ignores_access (env : environment) (name : string)
    (h ver d : bool) (a b : string) :
  startsWith name "@" = false ->
  setup env (mkValues h ver d a) name = setup env (mkValues h ver d b) name.
Proof.
  intros Hns.
  unfold setup, generate, publish, cleanup, publishCmd, manual_publish_line.
  cbn [dry_run access]. rewrite Hns. reflexivity.
Qed.

(** X14. The access option has no effect on an unscoped package: when the
    first positional does not begin with [@], giving [--access] with any
    value changes nothing of the run. *)
Theorem access_ignored_for_unscoped (env : environment) (fs : gmap string node)
    (tokens : list token) (level : string)
    (Hunscoped : startsWith (hd EmptyString (positionals_of tokens)) "@" = false) :
  run env fs (tokens ++ [OptAccess level]) = run env fs tokens.
Proof.
  unfold run, cli, parseArgs.
  assert (positionals_of (tokens ++ [OptAccess level]) = positionals_of tokens) as ->
      by (unfold positionals_of; rewrite flat_map_app; apply app_nil_r).
  assert (values_of (tokens ++ [OptAccess level])
          = mkValues (help (values_of tokens)) (version (values_of tokens))
              (dry_run (values_of tokens)) level) as ->
      by (unfold values_of; now rewrite fold_left_app).
  destruct (values_of tokens) as [h ver d a]. cbn [help version dry_run access].
  destruct (positionals_of tokens) as [|[|c name] ps]; try reflexivity.
  cbn [nth_error]. cbv beta iota. simpl in Hunscoped.
  now rewrite (setup_ignores_access env (String c name) h ver d level a Hunscoped).
Qed.

Lemma access_ignored_witness :
  run quiet_env ∅ ([Positional "my-package"] ++ [OptAccess "restricted"])
  = run quiet_env ∅ [Positional "my-package"].
Proof.
  apply (access_ignored_for_unscoped quiet_env ∅ [Positional "my-package"]).
  reflexivity.
Defined.

(** ** The shape of accepted names and of the generated documents *)

Lemma count_char_append (c : ascii) (s t : string) :
  count_char c (s ++ t) = count_char c s + count_char c t.
Proof.
  induction s as [|d s IH]; [reflexivity|].
  rewrite append_cons. simpl. rewrite IH. lia.
Qed.

Lemma count_char_absent (ok : ascii -> bool) (c : ascii) (s : string) :
  ok c = false -> all_chars ok s = true -> count_char c s = 0.
Proof.
  intros Hc. induction s as [|d s IH]; simpl; [reflexivity|].
  intros H. apply andb_true_iff in H. destruct H as [Hd Hs].
  destruct (Ascii.eqb_spec d c) as [-> | _]; [congruence | now apply IH].
Qed.

Lemma segment_name_chars (s : string) : segment s -> all_chars name_char s = true.
Proof.
  intros [c [t [-> [Hc Ht]]]]. simpl. now rewrite (name_start_char _ Hc), Ht.
Qed.

(** X15. An accepted name is not empty and is made of the characters
    a-z, 0-9, [-], [.], [_], [~], [@] and [/] only.  It holds [@] and [/]
    once each when it begins with [@], and neither of them otherwise. *)
Theorem accepted_name_shape (name : string)
    (Hvalid : test validPackageNameRegex name = true) :
  name <> EmptyString /\
  all_chars safe_char name = true /\
  (if startsWith name "@"
   then count_char "@" name = 1 /\ count_char "/" name = 1
   else count_char "@" name = 0 /\ count_char "/" name = 0).
Proof.
  pose proof (proj1 (validation_grammar name) Hvalid) as Hg.
  split; [|split; [now apply grammar_safe|]].
  - destruct (test_nonempty _ Hvalid) as [c [t ->]]. discriminate.
  - destruct Hg as [Hseg | (scope & nm & -> & Hs1 & Hs2)].
    + pose proof (segment_name_chars _ Hseg) as Hall.
      destruct (startsWith name "@") eqn:E.
      * apply (startsWith_scoped name Hvalid) in E. destruct E as (sc & nm & ->).
        rewrite append_cons in Hall. discriminate Hall.
      * split; apply (count_char_absent name_char); auto.
    + unfold startsWith. rewrite prefix_append.
      pose proof (segment_name_chars _ Hs1) as H1.
      pose proof (segment_name_chars _ Hs2) as H2.
      rewrite !count_char_append.
      rewrite !(count_char_absent name_char "@" _ eq_refl H1).
      rewrite !(count_char_absent name_char "@" _ eq_refl H2).
      rewrite !(count_char_absent name_char "/" _ eq_refl H1).
      rewrite !(count_char_absent name_char "/" _ eq_refl H2).
      split; reflexivity.
Qed.

Lemma accepted_name_witness :
  count_char "/" "@myorg/my-package" = 1.
Proof.
  destruct (accepted_name_shape "@myorg/my-package") as (_ & _ & H);
    [vm_compute; reflexivity|].
  exact (proj2 H).
Defined.

Lemma append_delimited_inj (ok : ascii -> bool) (d : ascii) (a b x y : string) :
  ok d = false ->
  all_chars ok a = true -> all_chars ok b = true ->
  a ++ String d x = b ++ String d y -> a = b.
Proof.
  intros Hd. revert b. induction a as [|c a IH]; intros [|c' b] Ha Hb H.
  - reflexivity.
  - rewrite append_empty_l, append_cons in H. injection H as -> _.
    simpl in Hb. rewrite Hd in Hb. discriminate.
  - rewrite append_empty_l, append_cons in H. injection H as -> _.
    simpl in Ha. rewrite Hd in Ha. discriminate.
  - rewrite !append_cons in H. injection H as -> H.
    simpl in Ha, Hb. apply andb_true_iff in Ha, Hb.
    f_equal. apply IH; tauto.
Qed.

(** X16. Each generated document identifies the package: two accepted names
    with the same manifest text, or with the same notice document, are the
    same name. *)
Theorem generated_documents_identify_name (n1 n2 : string)
    (H1 : test validPackageNameRegex n1 = true)
    (H2 : test validPackageNameRegex n2 = true) :
  (manifest_text n1 = manifest_text n2 -> n1 = n2) /\
  (readmeContent n1 = readmeContent n2 -> n1 = n2).
Proof.
  pose proof (grammar_safe _ (proj1 (validation_grammar n1) H1)) as S1.
  pose proof (grammar_safe _ (proj1 (validation_grammar n2) H2)) as S2.
  split.
  - rewrite !manifest_text_plain by (now apply escape_safe).
    unfold expected_manifest. intros H.
    do 8 apply append_cancel_l in H.
    exact (append_delimited_inj safe_char DQUOTE n1 n2 _ _ eq_refl S1 S2 H).
  - unfold readmeContent. intros H. apply append_cancel_l in H.
    exact (append_delimited_inj safe_char LF n1 n2 _ _ eq_refl S1 S2 H).
Qed.

Lemma documents_identify_witness :
  readmeContent "my-package" <> readmeContent "@myorg/my-package".
Proof.
  intros H.
  apply (generated_documents_identify_name "my-package" "@myorg/my-package") in H;
    [discriminate H | vm_compute; reflexivity | vm_compute; reflexivity].
Defined.
